(** * ai-chart-analyzer: the Gemini service module (src/geminiService.ts)

    A shallow embedding of the credential manager ([setGeminiApiKey],
    [loadApiKeyFromStorage], [isGeminiClientInitialized], [getStoredApiKey],
    [clearGeminiApiKey]) and of the analysis call ([analyzeChartWithGemini]),
    with the properties of the specification proved, or refuted, on it.

    Modelling choices.
    - A JavaScript string is a list of code units; the code units are the
      8-bit ones (the Latin-1 block), on which [trim], [toLowerCase], the
      regular expression classes and [includes] are written out.
    - The module-level variable [ai], the browser's [localStorage] and the
      requests sent to the remote service form the [World]; every operation
      takes a world and returns a completion together with the new world.
    - The SDK (the [GoogleGenAI] constructor and [generateContent]) and
      [JSON.parse] are collaborators outside the repository: they are
      variables of the section [Service].
    - [console] output is not modelled; [await] is the single round trip and
      nothing else runs during it. *)

From Stdlib Require Import Ascii String NArith Lia.
From stdpp Require Import base option list strings gmap relations.

Local Open Scope list_scope.

(** ** JavaScript strings *)

Abbreviation jsstr := (list ascii).

Definition str (s : string) : jsstr := list_ascii_of_string s.

Definition LF : ascii := ascii_of_N 10.
Definition DQUOTE : ascii := ascii_of_N 34.
Definition BACKTICK : ascii := ascii_of_N 96.
Definition BACKSLASH : ascii := ascii_of_N 92.

Definition code (c : ascii) : N := N_of_ascii c.

Definition between (lo hi : N) (c : ascii) : bool :=
  ((lo <=? code c) && (code c <=? hi))%N.

(** WhiteSpace and LineTerminator of ECMAScript below U+0100: TAB, LF, VT,
    FF, CR, SP and NBSP. It is the set removed by [trim] and matched by the
    class escape [\s]. *)
Definition isWhiteSpace (c : ascii) : bool :=
  between 9 13 c || (code c =? 32)%N || (code c =? 160)%N.

(** The class escape [\w]: [A-Za-z0-9_]. *)
Definition isWordChar (c : ascii) : bool :=
  between 65 90 c || between 97 122 c || between 48 57 c || (code c =? 95)%N.

Definition toLowerCaseChar (c : ascii) : ascii :=
  if between 65 90 c || (between 192 222 c && negb (code c =? 215)%N)
  then ascii_of_N (code c + 32)
  else c.

Definition toLowerCase (s : jsstr) : jsstr := map toLowerCaseChar s.

Fixpoint trimStart (s : jsstr) : jsstr :=
  match s with
  | c :: s' => if isWhiteSpace c then trimStart s' else s
  | [] => []
  end.

Definition trimEnd (s : jsstr) : jsstr := reverse (trimStart (reverse s)).

Definition trim (s : jsstr) : jsstr := trimEnd (trimStart s).

Fixpoint startsWith (p s : jsstr) : bool :=
  match p, s with
  | [], _ => true
  | a :: p', b :: s' => Ascii.eqb a b && startsWith p' s'
  | _ :: _, [] => false
  end.

(** [s.includes(p)] *)
Fixpoint includes (s p : jsstr) : bool :=
  startsWith p s ||
  match s with
  | [] => false
  | _ :: s' => includes s' p
  end.

(** [s.substring(0, n)] *)
Definition substring0 (n : nat) (s : jsstr) : jsstr := take n s.

(** ToBoolean on a string, and on a string-or-null/undefined. *)
Definition truthy (s : jsstr) : bool :=
  match s with [] => false | _ :: _ => true end.

Definition truthy_opt (o : option jsstr) : bool :=
  match o with Some s => truthy s | None => false end.

Definition jsstr_eqb (a b : jsstr) : bool := bool_decide (a = b).

(** A value interpolated in a template literal: [undefined] prints itself. *)
Definition interpolate (o : option jsstr) : jsstr :=
  match o with Some s => s | None => str "undefined" end.

(** ** Regular expressions

    A backtracking matcher in continuation-passing style, after the
    semantics of ECMAScript (section RegExp of ECMA-262): matchers take a
    state and a continuation, quantifiers refuse an iteration that consumes
    nothing and forget the captures of their atom at each iteration. *)

Inductive Regex : Type :=
| Bol                                   (* ^ without the m flag *)
| Eol                                   (* $ without the m flag *)
| Chr (c : ascii)                       (* a literal character *)
| Cls (p : ascii -> bool)               (* a class escape *)
| Dot_s                                 (* . with the s flag *)
| Cat (r1 r2 : Regex)
| Star (greedy : bool) (r : Regex)      (* r* and r*? *)
| Opt (r : Regex)                       (* r? *)
| Grp (i : nat) (r : Regex).            (* the i-th capturing group *)

Record MatchState : Type := mkState {
  endIndex : nat;
  rest : jsstr;
  captures : list (nat * jsstr)
}.

Definition Continuation : Type := MatchState -> option MatchState.
Definition Matcher : Type := MatchState -> Continuation -> option MatchState.

Definition orElse (a b : option MatchState) : option MatchState :=
  match a with Some z => Some z | None => b end.

Fixpoint groups (r : Regex) : list nat :=
  match r with
  | Cat r1 r2 => groups r1 ++ groups r2
  | Star _ r' | Opt r' => groups r'
  | Grp i r' => i :: groups r'
  | _ => []
  end.

Fixpoint forget (gs : list nat) (caps : list (nat * jsstr)) : list (nat * jsstr) :=
  match gs with
  | [] => caps
  | g :: gs' => forget gs' (List.filter (fun p => negb (Nat.eqb (fst p) g)) caps)
  end.

Definition resetCaptures (gs : list nat) (x : MatchState) : MatchState :=
  mkState (endIndex x) (rest x) (forget gs (captures x)).

Definition charMatcher (p : ascii -> bool) : Matcher := fun x c =>
  match rest x with
  | b :: t => if p b then c (mkState (S (endIndex x)) t (captures x)) else None
  | [] => None
  end.

(** RepeatMatcher with min = 0 and max = infinity. Each accepted iteration
    consumes a character, so the length of the remaining input bounds the
    number of iterations. *)
Fixpoint RepeatMatcher (m : Matcher) (gs : list nat) (greedy : bool)
    (c : Continuation) (fuel : nat) (x : MatchState) : option MatchState :=
  match fuel with
  | 0 => c x
  | S fuel' =>
      let d : Continuation := fun y =>
        if Nat.eqb (endIndex y) (endIndex x) then None
        else RepeatMatcher m gs greedy c fuel' y in
      if greedy then orElse (m (resetCaptures gs x) d) (c x)
      else orElse (c x) (m (resetCaptures gs x) d)
  end.

Fixpoint matcher (r : Regex) : Matcher := fun x c =>
  match r with
  | Bol => if Nat.eqb (endIndex x) 0 then c x else None
  | Eol => match rest x with [] => c x | _ :: _ => None end
  | Chr a => charMatcher (Ascii.eqb a) x c
  | Cls p => charMatcher p x c
  | Dot_s => charMatcher (fun _ => true) x c
  | Cat r1 r2 => matcher r1 x (fun y => matcher r2 y c)
  | Star greedy r' =>
      RepeatMatcher (matcher r') (groups r') greedy c (length (rest x)) x
  | Opt r' =>
      let d : Continuation := fun y =>
        if Nat.eqb (endIndex y) (endIndex x) then None else c y in
      orElse (matcher r' (resetCaptures (groups r') x) d) (c x)
  | Grp i r' =>
      matcher r' x (fun y =>
        c (mkState (endIndex y) (rest y)
             ((i, take (endIndex y - endIndex x) (rest x)) :: captures y)))
  end.

(** RegExpBuiltinExec without the g and y flags: the first index at which
    the pattern matches. *)
Fixpoint execFrom (r : Regex) (i : nat) (s : jsstr) : option MatchState :=
  match matcher r (mkState i s []) Some with
  | Some z => Some z
  | None =>
      match s with
      | [] => None
      | _ :: s' => execFrom r (S i) s'
      end
  end.

(** [s.match(r)]; [group n] reads [match[n]] ([None] is [undefined]). *)
Definition regexMatch (r : Regex) (s : jsstr) : option MatchState := execFrom r 0 s.

Fixpoint assoc (n : nat) (caps : list (nat * jsstr)) : option jsstr :=
  match caps with
  | [] => None
  | (i, v) :: caps' => if Nat.eqb i n then Some v else assoc n caps'
  end.

Definition group (n : nat) (z : MatchState) : option jsstr := assoc n (captures z).

Definition lit (s : jsstr) (k : Regex) : Regex := foldr (fun c r => Cat (Chr c) r) k s.

(** The pattern of [fenceRegex] in the source, flag s: a start anchor, three
    backticks, an optional group 1 of word characters (greedy star), a
    greedy star of white space, an optional line feed, group 2 (a lazy star
    of any character), then the tail: an optional line feed, a greedy star
    of white space, three backticks and the end anchor. *)
Definition fenceTail : Regex :=
  Cat (Opt (Chr LF)) (Cat (Star true (Cls isWhiteSpace)) (lit (str "```") Eol)).

Definition fenceRegex : Regex :=
  Cat Bol
    (lit (str "```")
       (Cat (Opt (Grp 1 (Star true (Cls isWordChar))))
          (Cat (Star true (Cls isWhiteSpace))
             (Cat (Opt (Chr LF))
                (Cat (Grp 2 (Star false Dot_s)) fenceTail))))).

(** The pattern after its optional language tag. *)
Definition fenceAfterTag : Regex :=
  Cat (Star true (Cls isWhiteSpace))
    (Cat (Opt (Chr LF)) (Cat (Grp 2 (Star false Dot_s)) fenceTail)).

(** What a pattern consumes: [den r s s'] when [r] can take the input [s]
    to the remaining input [s']. *)
Fixpoint den (r : Regex) (s s' : jsstr) : Prop :=
  match r with
  | Bol => s' = s
  | Eol => s = [] /\ s' = []
  | Chr a => s = a :: s'
  | Cls p => exists b, p b = true /\ s = b :: s'
  | Dot_s => exists b, s = b :: s'
  | Cat r1 r2 => exists m, den r1 s m /\ den r2 m s'
  | Star _ r' => rtc (den r') s s'
  | Opt r' => s' = s \/ den r' s s'
  | Grp _ r' => den r' s s'
  end.

(** The input stops the class [p]: it is at its end, or its next character
    is outside the class. *)
Definition stopsAt (p : ascii -> bool) (s : jsstr) : Prop :=
  match s with [] => True | b :: _ => p b = false end.

(** ** The world of the module *)

(** The client of the SDK, as far as this module sees it: built from one
    key and passed back to the remote call. *)
Record GoogleGenAI : Type := mkClient { apiKey : jsstr }.

(** The argument of [ai.models.generateContent]: the model, the inline image
    part, the text part and the two fields of [config]. The temperature 0.3
    is kept as the fraction 3/10. *)
Record GenerateContentParameters : Type := mkRequest {
  model : jsstr;
  inlineData_mimeType : jsstr;
  inlineData_data : jsstr;
  text_part : jsstr;
  responseMimeType : jsstr;
  temperature : N * N
}.

(** A value caught by [catch (error: any)], seen through the one property
    the handlers read: [error.message], [None] when it is undefined. *)
Record Thrown : Type := mkThrown { message : option jsstr }.

(** The end of the awaited remote call: a response whose [text] may be
    undefined, or a rejection. *)
Inductive RemoteOutcome : Type :=
| Responded (text : option jsstr)
| Rejected (error : Thrown).

(** What this module throws: [new Error(message)], or the TypeError the
    engine raises when a property of [undefined] is read (its message is the
    engine's own). *)
Inductive Exception : Type :=
| Error (msg : jsstr)
| TypeError.

Inductive Completion (A : Type) : Type :=
| Normal (a : A)
| Throw (e : Exception).
Arguments Normal {A} a.
Arguments Throw {A} e.

Record World : Type := mkWorld {
  ai : option GoogleGenAI;
  localStorage : gmap jsstr jsstr;
  network : list GenerateContentParameters
}.

Definition set_ai (v : option GoogleGenAI) (w : World) : World :=
  mkWorld v (localStorage w) (network w).

Definition setItem (k v : jsstr) (w : World) : World :=
  mkWorld (ai w) (<[k := v]> (localStorage w)) (network w).

Definition removeItem (k : jsstr) (w : World) : World :=
  mkWorld (ai w) (delete k (localStorage w)) (network w).

Definition getItem (k : jsstr) (w : World) : option jsstr := localStorage w !! k.

Definition send (req : GenerateContentParameters) (w : World) : World :=
  mkWorld (ai w) (localStorage w) (network w ++ [req]).

Definition GEMINI_API_KEY_LOCAL_STORAGE_KEY : jsstr := str "geminiApiKey_aiChartAnalyzer".

Definition modelName : jsstr := str "gemini-2.5-flash-preview-04-17".

(** The messages of the errors the module throws. *)
Definition MSG_EMPTY_KEY : jsstr := str "API key cannot be empty.".
Definition MSG_INIT_FAILED : jsstr :=
  str "Invalid API Key or failed to initialize Gemini client: ".
Definition MSG_NOT_INITIALIZED : jsstr :=
  str "Gemini API client is not initialized. Please set your API key.".
Definition MSG_EMPTY_RESPONSE : jsstr := str "Received an empty response from the AI.".
Definition MSG_PARSE_FAILED : jsstr :=
  str "Failed to parse analysis data from AI. Raw response: ".
Definition ELLIPSIS : jsstr := str "...".
Definition MSG_INVALID_KEY : jsstr :=
  str "Invalid Gemini API Key. Please check your key and set it again.".
Definition MSG_QUOTA : jsstr := str "Gemini API request failed due to quota limits: ".
Definition MSG_GENERIC : jsstr := str "Error analyzing chart with Gemini: ".
Definition MSG_UNKNOWN : jsstr := str "Unknown error".

Definition SIGNAL_NOT_VALID : jsstr := str "api key not valid".
Definition SIGNAL_INVALID : jsstr := str "invalid api key".
Definition SIGNAL_QUOTA : jsstr := str "quota".

(** The condition of the first [if] of the handler of
    [analyzeChartWithGemini],
    [m && m.toLowerCase().includes(A) || m.toLowerCase().includes(B)]
    with [m] the message: [&&] binds tighter than [||], so the right operand
    is evaluated whenever the left conjunction is falsy, and then reads
    [toLowerCase] of the message unguarded. [None] is the TypeError of that
    read on [undefined]. *)
Definition invalidKeySignal (m : option jsstr) : option bool :=
  let left :=
    match m with
    | Some s => truthy s && includes (toLowerCase s) SIGNAL_NOT_VALID
    | None => false
    end in
  if left then Some true
  else match m with
       | Some s => Some (includes (toLowerCase s) SIGNAL_INVALID)
       | None => None
       end.

(** [m && m.includes('quota')] *)
Definition quotaSignal (m : option jsstr) : bool :=
  match m with
  | Some s => truthy s && includes s SIGNAL_QUOTA
  | None => false
  end.

(** [m || 'Unknown error'] *)
Definition messageOrUnknown (m : option jsstr) : jsstr :=
  match m with
  | Some s => if truthy s then s else MSG_UNKNOWN
  | None => MSG_UNKNOWN
  end.

(** The text handed to [JSON.parse]: the trimmed response, or the trimmed
    second group of [fenceRegex] when the pattern matches and that group is
    not empty. *)
Definition extractJson (responseText : jsstr) : jsstr :=
  let jsonStr := trim responseText in
  match regexMatch fenceRegex jsonStr with
  | Some z =>
      match group 2 z with
      | Some inner => if truthy inner then trim inner else jsonStr
      | None => jsonStr
      end
  | None => jsonStr
  end.

(** A text that has a first character after its leading blanks, and that
    character is not a backtick. Every JSON text is one: after its white
    space it opens a value, with a brace, a bracket, a double quote, a minus
    sign, a digit or the first letter of a literal. *)
Definition bareText (t : jsstr) : Prop :=
  match trim t with
  | [] => False
  | c :: _ => c <> BACKTICK
  end.

Section Service.

(** The result of [JSON.parse], cast to [AnalysisData] unchecked. *)
Variable AnalysisData : Type.

(** [JSON.parse]: [None] when it throws its SyntaxError. *)
Variable JSON_parse : jsstr -> option AnalysisData.

(** [new GoogleGenAI({ apiKey: key })]: [Some e] when the constructor
    throws [e]. *)
Variable constructorThrows : jsstr -> option Thrown.

(** The remote service behind [ai.models.generateContent]. *)
Variable generateContent : GoogleGenAI -> GenerateContentParameters -> RemoteOutcome.

(** The text returned by [getAnalysisPrompt], a constant of the source. *)
Variable analysisPrompt : jsstr.

Definition setGeminiApiKey (key : jsstr) (w : World) : Completion unit * World :=
  if negb (truthy key) || jsstr_eqb (trim key) [] then
    (Throw (Error MSG_EMPTY_KEY),
     removeItem GEMINI_API_KEY_LOCAL_STORAGE_KEY (set_ai None w))
  else
    match constructorThrows key with
    | None =>
        (Normal tt,
         setItem GEMINI_API_KEY_LOCAL_STORAGE_KEY key (set_ai (Some (mkClient key)) w))
    | Some error =>
        (Throw (Error (MSG_INIT_FAILED ++ interpolate (message error))),
         set_ai None w)
    end.

Definition loadApiKeyFromStorage (w : World) : option jsstr * World :=
  let storedKey := getItem GEMINI_API_KEY_LOCAL_STORAGE_KEY w in
  match storedKey with
  | Some k =>
      if truthy k then
        match constructorThrows k with
        | None => (Some k, set_ai (Some (mkClient k)) w)
        | Some _ => (Some k, set_ai None w)
        end
      else (None, set_ai None w)
  | None => (None, set_ai None w)
  end.

Definition isGeminiClientInitialized (w : World) : bool :=
  match ai w with Some _ => true | None => false end.

Definition getStoredApiKey (w : World) : option jsstr :=
  getItem GEMINI_API_KEY_LOCAL_STORAGE_KEY w.

Definition clearGeminiApiKey (w : World) : World :=
  removeItem GEMINI_API_KEY_LOCAL_STORAGE_KEY (set_ai None w).

(** The guard at the head of [analyzeChartWithGemini]: the client the call
    goes on with and the world it leaves, or [None] with the world left
    when the guard throws. *)
Definition ensureClient (w : World) : option GoogleGenAI * World :=
  match ai w with
  | Some client => (Some client, w)
  | None =>
      let '(keyFromStorage, w1) := loadApiKeyFromStorage w in
      if negb (truthy_opt keyFromStorage) then (None, w1)
      else (ai w1, w1)
  end.

Definition buildRequest (imageBase64Data mimeType : jsstr) : GenerateContentParameters :=
  mkRequest modelName mimeType imageBase64Data analysisPrompt
    (str "application/json") (3, 10)%N.

(** The body of the inner [try]: parse, or throw the parse error with the
    first 200 code units of the response. *)
Definition parseResponse (responseText : jsstr) : AnalysisData + Thrown :=
  match JSON_parse (extractJson responseText) with
  | Some parsedData => inl parsedData
  | None =>
      inr (mkThrown (Some (MSG_PARSE_FAILED ++ substring0 200 responseText ++ ELLIPSIS)))
  end.

(** The body of the outer [try], after the request is built: the value
    returned, or the value thrown into the handler. *)
Definition tryBody (outcome : RemoteOutcome) : AnalysisData + Thrown :=
  match outcome with
  | Rejected error => inr error
  | Responded responseText =>
      match responseText with
      | Some t =>
          if truthy t then parseResponse t
          else inr (mkThrown (Some MSG_EMPTY_RESPONSE))
      | None => inr (mkThrown (Some MSG_EMPTY_RESPONSE))
      end
  end.

(** The handler of the outer [try]. *)
Definition handler (error : Thrown) (w : World) : Completion AnalysisData * World :=
  match invalidKeySignal (message error) with
  | None => (Throw TypeError, w)
  | Some true => (Throw (Error MSG_INVALID_KEY), set_ai None w)
  | Some false =>
      if quotaSignal (message error)
      then (Throw (Error (MSG_QUOTA ++ interpolate (message error))), w)
      else (Throw (Error (MSG_GENERIC ++ messageOrUnknown (message error))), w)
  end.

Definition analyzeChartWithGemini (imageBase64Data mimeType : jsstr) (w : World)
    : Completion AnalysisData * World :=
  match ensureClient w with
  | (None, w1) => (Throw (Error MSG_NOT_INITIALIZED), w1)
  | (Some client, w1) =>
      let request := buildRequest imageBase64Data mimeType in
      let w2 := send request w1 in
      match tryBody (generateContent client request) with
      | inl parsedData => (Normal parsedData, w2)
      | inr error => handler error w2
      end
  end.

End Service.

Arguments parseResponse {AnalysisData} JSON_parse responseText.
Arguments tryBody {AnalysisData} JSON_parse outcome.
Arguments handler {AnalysisData} error w.
Arguments analyzeChartWithGemini {AnalysisData} JSON_parse constructorThrows
  generateContent analysisPrompt imageBase64Data mimeType w.

(** ** Test doubles

    Collaborators with a fixed behaviour, for running the module on concrete
    inputs. *)

(** A constructor that accepts every key, and one that throws on every key. *)
Definition acceptingConstructor : jsstr -> option Thrown := fun _ => None.
Definition throwingConstructor : jsstr -> option Thrown :=
  fun _ => Some (mkThrown (Some (str "An API Key must be set"))).

(** A remote service that always ends the same way. *)
Definition constantRemote (o : RemoteOutcome)
  : GoogleGenAI -> GenerateContentParameters -> RemoteOutcome := fun _ _ => o.

(** A parser for the JSON texts that are one object of string members
    without escapes; it refuses everything else. *)
Inductive ParserState : Type :=
| BeforeObject
| KeyOrClose
| ExpectKey
| InKey (k : jsstr)
| ExpectColon (k : jsstr)
| ExpectValue (k : jsstr)
| InValue (k v : jsstr)
| CommaOrClose
| AfterObject
| Refused.

Definition isJsonSpace (c : ascii) : bool :=
  (code c =? 32)%N || (code c =? 9)%N || (code c =? 10)%N || (code c =? 13)%N.

Definition parserStep (st : ParserState * list (jsstr * jsstr)) (c : ascii)
    : ParserState * list (jsstr * jsstr) :=
  let '(s, acc) := st in
  let sees x := Ascii.eqb c x in
  match s with
  | BeforeObject =>
      if isJsonSpace c then (BeforeObject, acc)
      else if sees "{"%char then (KeyOrClose, acc) else (Refused, acc)
  | KeyOrClose =>
      if isJsonSpace c then (KeyOrClose, acc)
      else if sees DQUOTE then (InKey [], acc)
      else if sees "}"%char then (AfterObject, acc) else (Refused, acc)
  | ExpectKey =>
      if isJsonSpace c then (ExpectKey, acc)
      else if sees DQUOTE then (InKey [], acc) else (Refused, acc)
  | InKey k =>
      if sees DQUOTE then (ExpectColon k, acc)
      else if sees BACKSLASH || (code c <? 32)%N then (Refused, acc)
      else (InKey (k ++ [c]), acc)
  | ExpectColon k =>
      if isJsonSpace c then (ExpectColon k, acc)
      else if sees ":"%char then (ExpectValue k, acc) else (Refused, acc)
  | ExpectValue k =>
      if isJsonSpace c then (ExpectValue k, acc)
      else if sees DQUOTE then (InValue k [], acc) else (Refused, acc)
  | InValue k v =>
      if sees DQUOTE then (CommaOrClose, acc ++ [(k, v)])
      else if sees BACKSLASH || (code c <? 32)%N then (Refused, acc)
      else (InValue k (v ++ [c]), acc)
  | CommaOrClose =>
      if isJsonSpace c then (CommaOrClose, acc)
      else if sees ","%char then (ExpectKey, acc)
      else if sees "}"%char then (AfterObject, acc) else (Refused, acc)
  | AfterObject =>
      if isJsonSpace c then (AfterObject, acc) else (Refused, acc)
  | Refused => (Refused, acc)
  end.

Definition flatObjectParse (s : jsstr) : option (list (jsstr * jsstr)) :=
  match foldl parserStep (BeforeObject, []) s with
  | (AfterObject, acc) => Some acc
  | _ => None
  end.

(** The text [{"trends":"up"}]. *)
Definition trendsUp : jsstr :=
  str "{" ++ [DQUOTE] ++ str "trends" ++ [DQUOTE] ++ str ":" ++
  [DQUOTE] ++ str "up" ++ [DQUOTE] ++ str "}".

(** A text between fences: three backticks, a language tag, a line feed, the
    text, a line feed and three backticks. *)
Definition fenced (tag t : jsstr) : jsstr :=
  str "```" ++ tag ++ [LF] ++ t ++ [LF] ++ str "```".

(** The world of a fresh page, and a world in which the key [k] was set. *)
Definition freshWorld : World := mkWorld None ∅ [].
Definition readyWorld (k : jsstr) : World :=
  mkWorld (Some (mkClient k)) {[ GEMINI_API_KEY_LOCAL_STORAGE_KEY := k ]} [].

(** The invariant that links the client to the storage: a live client has a
    secret behind it in [localStorage]. *)
Definition clientIsBacked (w : World) : Prop :=
  ai w <> None -> getItem GEMINI_API_KEY_LOCAL_STORAGE_KEY w <> None.

(** A stored key is a credential: it is not the empty string. *)
Definition storedKeyIsCredential (w : World) : Prop :=
  getItem GEMINI_API_KEY_LOCAL_STORAGE_KEY w <> Some [].

(** Inputs for the runs on concrete values. *)
Definition testKey : jsstr := str "AIza-test-key".
Definition testImage : jsstr := str "iVBORw0KGgo=".
Definition testMime : jsstr := str "image/png".
Definition testPrompt : jsstr := str "Analyze the provided financial chart image.".

Definition runAnalyze (outcome : RemoteOutcome) (w : World)
  : Completion (list (jsstr * jsstr)) * World :=
  analyzeChartWithGemini flatObjectParse acceptingConstructor (constantRemote outcome)
    testPrompt testImage testMime w.

(** A response that is not JSON and spells an invalid-key signal. *)
Definition keyLikeText : jsstr := str "Sorry: API key not valid for charts".

(** ** The caller: the App component (src/App.tsx)

    The state of the component is the record of its [useState] values; a
    handler reads the values of the render in which it was created and
    leaves the values its setters were last given, so it is a function from
    the state and the world to the state and the world. The markup it
    renders is not modelled. *)

(** [s.endsWith(q)] *)
Definition endsWith (s q : jsstr) : bool := startsWith (reverse q) (reverse s).

(** No proper, non-empty prefix of [p] ends [a]: an occurrence of [p] in a
    text that begins with [a] lies within [a] or after it. *)
Definition noStraddle (a p : jsstr) : bool :=
  forallb (fun k => negb (endsWith a (take k p))) (seq 1 (length p - 1)).

(** The condition of the [if] in the handler of [handleAnalyzeChart],
    [m && (m.toLowerCase().includes(A) || m.toLowerCase().includes(B))]
    with [m] the message of the caught value. *)
Definition callerSeesInvalidKey (m : option jsstr) : bool :=
  match m with
  | Some s =>
      truthy s &&
      (includes (toLowerCase s) SIGNAL_NOT_VALID || includes (toLowerCase s) SIGNAL_INVALID)
  | None => false
  end.

(** [v || fallback] on a string. *)
Definition orString (v : option jsstr) (fallback : jsstr) : jsstr :=
  match v with
  | Some s => if truthy s then s else fallback
  | None => fallback
  end.

Module App.

Section Component.

Variable AnalysisData : Type.
Variable JSON_parse : jsstr -> option AnalysisData.
Variable constructorThrows : jsstr -> option Thrown.
Variable generateContent : GoogleGenAI -> GenerateContentParameters -> RemoteOutcome.
Variable analysisPrompt : jsstr.

(** The [File] objects of the browser. *)
Variable File : Type.

(** The message of the TypeError of the engine. *)
Variable typeErrorMessage : jsstr.

Record State : Type := mkUi {
  chartImageFile : option File;
  chartImagePreview : option jsstr;
  analysis : option AnalysisData;
  isLoading : bool;
  error : option jsstr;
  apiKeyInput : jsstr;
  isKeyInputVisible : bool;
  apiKeyMessage : option jsstr;
  clientInitialized : bool
}.

Definition setAnalysis (v : option AnalysisData) (s : State) : State :=
  mkUi (chartImageFile s) (chartImagePreview s) v (isLoading s) (error s)
    (apiKeyInput s) (isKeyInputVisible s) (apiKeyMessage s) (clientInitialized s).

Definition setIsLoading (v : bool) (s : State) : State :=
  mkUi (chartImageFile s) (chartImagePreview s) (analysis s) v (error s)
    (apiKeyInput s) (isKeyInputVisible s) (apiKeyMessage s) (clientInitialized s).

Definition setError (v : option jsstr) (s : State) : State :=
  mkUi (chartImageFile s) (chartImagePreview s) (analysis s) (isLoading s) v
    (apiKeyInput s) (isKeyInputVisible s) (apiKeyMessage s) (clientInitialized s).

Definition setApiKeyInput (v : jsstr) (s : State) : State :=
  mkUi (chartImageFile s) (chartImagePreview s) (analysis s) (isLoading s) (error s)
    v (isKeyInputVisible s) (apiKeyMessage s) (clientInitialized s).

Definition setIsKeyInputVisible (v : bool) (s : State) : State :=
  mkUi (chartImageFile s) (chartImagePreview s) (analysis s) (isLoading s) (error s)
    (apiKeyInput s) v (apiKeyMessage s) (clientInitialized s).

Definition setApiKeyMessage (v : option jsstr) (s : State) : State :=
  mkUi (chartImageFile s) (chartImagePreview s) (analysis s) (isLoading s) (error s)
    (apiKeyInput s) (isKeyInputVisible s) v (clientInitialized s).

Definition setClientInitialized (v : bool) (s : State) : State :=
  mkUi (chartImageFile s) (chartImagePreview s) (analysis s) (isLoading s) (error s)
    (apiKeyInput s) (isKeyInputVisible s) (apiKeyMessage s) v.

(** The state of the first render. *)
Definition initial : State :=
  mkUi None None None false None [] true None false.

(** [err.message] of a value thrown by the service. *)
Definition thrownOf (e : Exception) : Thrown :=
  match e with
  | Error m => mkThrown (Some m)
  | TypeError => mkThrown (Some typeErrorMessage)
  end.

(** The effect run once after the first render. *)
Definition onMount (s : State) (w : World) : State * World :=
  let '(storedKey, w1) := loadApiKeyFromStorage constructorThrows w in
  match storedKey with
  | Some k =>
      if truthy k then
        let s1 := setApiKeyInput k s in
        if isGeminiClientInitialized w1 then
          (setApiKeyMessage
             (Some (str "API Key loaded from storage and client initialized."))
             (setIsKeyInputVisible false (setClientInitialized true s1)), w1)
        else
          (setError
             (Some (str "Failed to initialize with stored API Key. It might be invalid or expired."))
             (setApiKeyMessage
                (Some (str "Stored API Key found, but client initialization failed. Please verify and re-submit."))
                (setIsKeyInputVisible true (setClientInitialized false s1))), w1)
      else
        (setApiKeyMessage
           (Some (str "Please enter your Gemini API Key to enable analysis."))
           (setIsKeyInputVisible true (setClientInitialized false s)), w1)
  | None =>
      (setApiKeyMessage
         (Some (str "Please enter your Gemini API Key to enable analysis."))
         (setIsKeyInputVisible true (setClientInitialized false s)), w1)
  end.

Definition handleSetApiKey (s : State) (w : World) : State * World :=
  if negb (truthy (trim (apiKeyInput s))) then
    (setClientInitialized false
       (setError (Some (str "Please enter a valid API Key."))
          (setApiKeyMessage (Some (str "API Key cannot be empty.")) s)), w)
  else
    let s1 := setApiKeyMessage (Some (str "Setting API Key...")) (setError None s) in
    match setGeminiApiKey constructorThrows (trim (apiKeyInput s)) w with
    | (Normal _, w1) =>
        (setApiKeyMessage
           (Some (str "API Key set successfully and client initialized."))
           (setIsKeyInputVisible false (setClientInitialized true s1)), w1)
    | (Throw err, w1) =>
        (setIsKeyInputVisible true
           (setClientInitialized false
              (setApiKeyMessage
                 (Some (str "Error: " ++ interpolate (message (thrownOf err))))
                 (setError
                    (Some (str "Failed to set API Key: " ++
                           interpolate (message (thrownOf err)))) s1))), w1)
    end.

Definition handleChangeApiKey (s : State) (w : World) : State * World :=
  let w1 := clearGeminiApiKey w in
  (setAnalysis None
     (setError None
        (setApiKeyMessage (Some (str "Enter your Gemini API Key."))
           (setApiKeyInput (orString (getStoredApiKey w1) [])
              (setIsKeyInputVisible true (setClientInitialized false s))))), w1).

(** The handler of the [try] of [handleAnalyzeChart]. *)
Definition analysisFailed (err : Thrown) (s : State) : State :=
  let s1 :=
    setError
      (Some (orString (message err)
               (str "Failed to analyze chart. Check the console for more details."))) s in
  if callerSeesInvalidKey (message err) then
    setApiKeyMessage
      (Some (str "The API Key appears to be invalid. Please check and set it again."))
      (setIsKeyInputVisible true (setClientInitialized false s1))
  else s1.

(** [handleAnalyzeChart]. The body of its [try] up to the value it gets
    (the encoding of the file by [fileToBase64], a function of another file,
    and the call of the service on the encoded image) is the argument
    [attempt]: a record, or the value thrown. *)
Definition handleAnalyzeChart
    (attempt : File -> World -> (AnalysisData + Thrown) * World)
    (s : State) (w : World) : State * World :=
  match chartImageFile s with
  | None => (setError (Some (str "Please upload a chart image first.")) s, w)
  | Some file =>
      if negb (clientInitialized s) then
        (setIsKeyInputVisible true
           (setError
              (Some (str "Gemini API Key is not set or client is not initialized. Please set your API key."))
              s), w)
      else
        let s1 := setAnalysis None (setError None (setIsLoading true s)) in
        match attempt file w with
        | (inl result, w1) => (setIsLoading false (setAnalysis (Some result) s1), w1)
        | (inr err, w1) => (setIsLoading false (analysisFailed err s1), w1)
        end
  end.

(** The [try] of [handleAnalyzeChart] once the file is encoded: the call of
    the service on the encoded image and the media type of the file. *)
Definition serviceAttempt (base64Data mimeType : jsstr)
    : File -> World -> (AnalysisData + Thrown) * World :=
  fun _ w =>
    match analyzeChartWithGemini JSON_parse constructorThrows generateContent
            analysisPrompt base64Data mimeType w with
    | (Normal result, w1) => (inl result, w1)
    | (Throw err, w1) => (inr (thrownOf err), w1)
    end.

End Component.

Arguments chartImageFile {AnalysisData File} s.
Arguments chartImagePreview {AnalysisData File} s.
Arguments analysis {AnalysisData File} s.
Arguments isLoading {AnalysisData File} s.
Arguments error {AnalysisData File} s.
Arguments apiKeyInput {AnalysisData File} s.
Arguments isKeyInputVisible {AnalysisData File} s.
Arguments apiKeyMessage {AnalysisData File} s.
Arguments clientInitialized {AnalysisData File} s.
Arguments setAnalysis {AnalysisData File} v s.
Arguments setIsLoading {AnalysisData File} v s.
Arguments setError {AnalysisData File} v s.
Arguments setApiKeyInput {AnalysisData File} v s.
Arguments setIsKeyInputVisible {AnalysisData File} v s.
Arguments setApiKeyMessage {AnalysisData File} v s.
Arguments setClientInitialized {AnalysisData File} v s.
Arguments onMount {AnalysisData} constructorThrows {File} s w.
Arguments handleSetApiKey {AnalysisData} constructorThrows {File} typeErrorMessage s w.
Arguments handleChangeApiKey {AnalysisData File} s w.
Arguments analysisFailed {AnalysisData File} err s.
Arguments handleAnalyzeChart {AnalysisData File} attempt s w.
Arguments serviceAttempt {AnalysisData} JSON_parse constructorThrows generateContent
  analysisPrompt {File} typeErrorMessage base64Data mimeType.

End App.

(** ** The display of an analysis (AnalysisDisplay)

    An analysis is the object that [JSON.parse] returned, read as its type
    declares it: a map from keys to strings. The component is modelled by
    the content it renders: one section for each key it shows, with its
    title and its paragraphs. *)

Definition SECTION_TITLES : list (jsstr * jsstr) :=
  [ (str "resistanceSupport", str " Resistance & Support Levels");
    (str "trends", str "Trends Analysis");
    (str "chartPatterns", str " Chart Patterns");
    (str "candlestickPatterns", str "Candlestick Patterns");
    (str "volumeAnalysis", str " Volume Analysis");
    (str "momentum", str "Momentum Insights") ].

(** [SECTION_TITLES[key]] *)
Fixpoint titleOf (titles : list (jsstr * jsstr)) (key : jsstr) : option jsstr :=
  match titles with
  | [] => None
  | (k, t) :: titles' => if jsstr_eqb k key then Some t else titleOf titles' key
  end.

(** The separator of the paragraphs: a backslash followed by the letter n. *)
Definition PARAGRAPH_SEPARATOR : jsstr := [BACKSLASH; "n"%char].

(** [content.split(sep)] for the separator of two characters, with [cur]
    the piece being read. *)
Fixpoint splitFrom (cur s : jsstr) : list jsstr :=
  match s with
  | [] => [cur]
  | c :: s' =>
      match s' with
      | d :: s'' =>
          if Ascii.eqb c BACKSLASH && Ascii.eqb d "n"%char
          then cur :: splitFrom [] s''
          else splitFrom (cur ++ [c]) s'
      | [] => [cur ++ [c]]
      end
  end.

Definition splitParagraphs (content : jsstr) : list jsstr := splitFrom [] content.

(** [pieces.join(sep)] *)
Definition joinWith (sep : jsstr) (pieces : list jsstr) : jsstr :=
  match pieces with
  | [] => []
  | p :: rest => p ++ concat (map (fun q => sep ++ q) rest)
  end.

Record RenderedSection : Type := mkSection {
  sectionKey : jsstr;
  sectionTitle : jsstr;
  sectionParagraphs : list jsstr
}.

(** The sections of [AnalysisDisplay]: the keys of [SECTION_TITLES] in their
    order, without those whose content is missing or empty. The title falls
    back on [fallbackTitle], the key respelled by the two [replace] calls of
    the source, when [SECTION_TITLES] has no title for the key. *)
Definition AnalysisDisplay (fallbackTitle : jsstr -> jsstr)
    (analysis : gmap jsstr jsstr) : list RenderedSection :=
  omap (fun key =>
          match analysis !! key with
          | Some content =>
              if truthy content then
                Some (mkSection key
                        (match titleOf SECTION_TITLES key with
                         | Some t => if truthy t then t else fallbackTitle key
                         | None => fallbackTitle key
                         end)
                        (splitParagraphs content))
              else None
          | None => None
          end)
       (map fst SECTION_TITLES).

(** Inputs for the runs of the component and of the display. *)
Definition testTypeErrorMessage : jsstr :=
  str "Cannot read properties of undefined (reading 'toLowerCase')".

Definition keyRejected : Thrown :=
  mkThrown (Some (str "API key not valid. Please pass a valid API key.")).

Definition quotaRejected : Thrown :=
  mkThrown (Some (str "You exceeded your current quota")).

Definition otherEntry : jsstr := str "theme".

(** A ready world whose [localStorage] also holds an entry of another
    script. *)
Definition themedWorld : World :=
  mkWorld (Some (mkClient (str "old-key")))
    (<[ otherEntry := str "dark" ]> {[ GEMINI_API_KEY_LOCAL_STORAGE_KEY := str "old-key" ]})
    [].

Definition testUi : App.State (list (jsstr * jsstr)) unit :=
  App.mkUi (list (jsstr * jsstr)) unit
    (Some tt) None None false None (str "  AIza-test-key ") false None true.

Definition runHandleAnalyze (outcome : RemoteOutcome)
  : App.State (list (jsstr * jsstr)) unit * World :=
  App.handleAnalyzeChart
    (App.serviceAttempt flatObjectParse acceptingConstructor (constantRemote outcome)
       testPrompt testTypeErrorMessage testImage testMime)
    testUi (readyWorld testKey).

Definition trendsOnly : gmap jsstr jsstr := {[ str "trends" := str "up" ]}.

Definition trendsSection : RenderedSection :=
  mkSection (str "trends") (str "Trends Analysis") [str "up"].

(** A reply cut short after its opening fence. *)
Definition cutShort : jsstr := str "```json" ++ [LF] ++ str "{".

(** ** Strings: trimming *)

Lemma trimStart_blank (s : jsstr) :
  Forall (fun c => isWhiteSpace c = true) s -> trimStart s = [].
Proof.
  induction 1 as [|c s Hc _ IH]; simpl; [reflexivity|].
  rewrite Hc. exact IH.
Qed.

Lemma trim_blank (s : jsstr) :
  Forall (fun c => isWhiteSpace c = true) s -> trim s = [].
Proof.
  intros H. unfold trim, trimEnd. rewrite (trimStart_blank s H). reflexivity.
Qed.

Lemma trimStart_split (s : jsstr) :
  exists lead, s = lead ++ trimStart s /\ Forall (fun c => isWhiteSpace c = true) lead.
Proof.
  induction s as [|c s IH]; simpl.
  - exists []. split; [reflexivity|constructor].
  - destruct (isWhiteSpace c) eqn:Hc.
    + destruct IH as (lead & Hs & Hl). exists (c :: lead). split.
      * simpl. congruence.
      * constructor; assumption.
    + exists []. split; [reflexivity|constructor].
Qed.

Lemma trimStart_head (s : jsstr) (c : ascii) (s' : jsstr) :
  trimStart s = c :: s' -> isWhiteSpace c = false.
Proof.
  induction s as [|a s IH]; simpl; [discriminate|].
  destruct (isWhiteSpace a) eqn:Ha; [exact IH|].
  intros [= <- _]. exact Ha.
Qed.

Lemma trimStart_fixed (c : ascii) (s : jsstr) :
  isWhiteSpace c = false -> trimStart (c :: s) = c :: s.
Proof. intros H. simpl. rewrite H. reflexivity. Qed.

Lemma trimStart_idem (s : jsstr) : trimStart (trimStart s) = trimStart s.
Proof.
  destruct (trimStart s) as [|c s'] eqn:E; [reflexivity|].
  apply trimStart_fixed. exact (trimStart_head _ _ _ E).
Qed.

Lemma trimEnd_split (s : jsstr) :
  exists trail, s = trimEnd s ++ trail /\ Forall (fun c => isWhiteSpace c = true) trail.
Proof.
  unfold trimEnd. destruct (trimStart_split (reverse s)) as (lead & Hs & Hl).
  exists (reverse lead). split.
  - rewrite <- reverse_app, <- Hs, reverse_involutive. reflexivity.
  - apply Forall_reverse. exact Hl.
Qed.

Lemma trimEnd_last (s : jsstr) (c : ascii) :
  last (trimEnd s) = Some c -> isWhiteSpace c = false.
Proof.
  unfold trimEnd. rewrite last_reverse.
  destruct (trimStart (reverse s)) as [|a r] eqn:E; simpl; [discriminate|].
  intros [= <-]. exact (trimStart_head _ _ _ E).
Qed.

Lemma trimEnd_fixed (s : jsstr) (c : ascii) :
  isWhiteSpace c = false -> trimEnd (s ++ [c]) = s ++ [c].
Proof.
  intros H. unfold trimEnd. rewrite reverse_snoc.
  rewrite (trimStart_fixed _ _ H).
  rewrite reverse_cons, reverse_involutive. reflexivity.
Qed.

(** The head of a string survives [trimEnd] when it is not white space. *)
Lemma trimEnd_keeps_head (c : ascii) (s : jsstr) :
  isWhiteSpace c = false -> exists s', trimEnd (c :: s) = c :: s'.
Proof.
  intros Hc. destruct (trimEnd_split (c :: s)) as (trail & Hs & Ht).
  destruct (trimEnd (c :: s)) as [|a s'] eqn:E.
  - simpl in Hs. subst trail. apply Forall_cons in Ht as [Ht _]. congruence.
  - exists s'. simpl in Hs. congruence.
Qed.

(** A string splits into leading blanks, its trimmed part and trailing
    blanks; the trimmed part, when there is one, begins and ends with a
    character that is not white space. *)
Lemma trim_split (s : jsstr) :
  exists lead trail,
    s = lead ++ trim s ++ trail /\
    Forall (fun c => isWhiteSpace c = true) lead /\
    Forall (fun c => isWhiteSpace c = true) trail.
Proof.
  destruct (trimStart_split s) as (lead & Hs & Hl).
  destruct (trimEnd_split (trimStart s)) as (trail & Hs' & Ht).
  exists lead, trail. unfold trim. rewrite <- Hs'. auto.
Qed.

Lemma trim_head (s : jsstr) (c : ascii) (s' : jsstr) :
  trim s = c :: s' -> isWhiteSpace c = false.
Proof.
  unfold trim. intros E.
  destruct (trimStart s) as [|a r] eqn:Es.
  - discriminate E.
  - pose proof (trimStart_head _ _ _ Es) as Ha.
    destruct (trimEnd_keeps_head a r Ha) as (r' & Hr).
    rewrite Hr in E. congruence.
Qed.

Lemma trim_last (s : jsstr) (c : ascii) :
  last (trim s) = Some c -> isWhiteSpace c = false.
Proof. unfold trim. apply trimEnd_last. Qed.

Lemma trim_fixed (s : jsstr) (c l : ascii) (r : jsstr) :
  s = c :: r -> last s = Some l ->
  isWhiteSpace c = false -> isWhiteSpace l = false -> trim s = s.
Proof.
  intros -> Hl Hc Hw. unfold trim. rewrite (trimStart_fixed _ _ Hc).
  apply last_Some in Hl as (body & ->). apply trimEnd_fixed. exact Hw.
Qed.

Lemma trim_idem (s : jsstr) : trim (trim s) = trim s.
Proof.
  destruct (trim s) as [|c r] eqn:E; [reflexivity|].
  assert (Hl : is_Some (last (c :: r))) by (apply last_is_Some; discriminate).
  destruct Hl as (l & Hl).
  apply (trim_fixed _ c l r eq_refl Hl).
  - exact (trim_head _ _ _ E).
  - apply (trim_last s). rewrite E. exact Hl.
Qed.

Lemma truthy_trim (s : jsstr) : trim s <> [] -> truthy s = true.
Proof. destruct s; [intros H; exfalso; apply H; reflexivity|reflexivity]. Qed.

(** ** The credential manager *)

Section CredentialManager.

Variable constructorThrows : jsstr -> option Thrown.

Local Abbreviation setKey := (setGeminiApiKey constructorThrows).
Local Abbreviation loadKey := (loadApiKeyFromStorage constructorThrows).

Lemma getItem_setItem (k v : jsstr) (w : World) : getItem k (setItem k v w) = Some v.
Proof. unfold getItem, setItem. simpl. apply lookup_insert_eq. Qed.

Lemma getItem_removeItem (k : jsstr) (w : World) : getItem k (removeItem k w) = None.
Proof. unfold getItem, removeItem. simpl. apply lookup_delete_eq. Qed.

(** C7. For every secret that is not empty after trimming and from which
    the client is constructed, [setGeminiApiKey] returns normally, and
    afterwards the client is initialized and the stored key is the secret
    as it was given. *)
Theorem setCredential_success (key : jsstr) (w : World) :
  trim key <> [] ->
  constructorThrows key = None ->
  fst (setKey key w) = Normal tt /\
  isGeminiClientInitialized (snd (setKey key w)) = true /\
  getStoredApiKey (snd (setKey key w)) = Some key.
Proof.
  intros Hne Hok. unfold setGeminiApiKey.
  rewrite (truthy_trim key Hne). unfold jsstr_eqb.
  rewrite bool_decide_eq_false_2 by exact Hne. simpl. rewrite Hok. simpl.
  repeat split. unfold getStoredApiKey. apply getItem_setItem.
Qed.

(** C8. For every secret made of white space only (the empty one
    included), [setGeminiApiKey] throws the empty-key error, leaves no
    client and removes the stored key. *)
Theorem setCredential_blank (key : jsstr) (w : World) :
  Forall (fun c => isWhiteSpace c = true) key ->
  fst (setKey key w) = Throw (Error MSG_EMPTY_KEY) /\
  isGeminiClientInitialized (snd (setKey key w)) = false /\
  getStoredApiKey (snd (setKey key w)) = None.
Proof.
  intros Hb. unfold setGeminiApiKey.
  rewrite (trim_blank key Hb). unfold jsstr_eqb.
  rewrite bool_decide_eq_true_2 by reflexivity. rewrite orb_true_r. simpl.
  repeat split. unfold getStoredApiKey. apply getItem_removeItem.
Qed.

(** C9. [loadApiKeyFromStorage] returns what is stored, a secret or
    nothing, and leaves the storage as it was; the client it leaves is the
    one built from the stored secret when the constructor accepts it, and
    none otherwise. A stored secret is a credential, hence not the empty
    string. *)
Theorem loadFromStorage_returns_stored (w : World) (stored : option jsstr) :
  getStoredApiKey w = stored ->
  stored <> Some [] ->
  fst (loadKey w) = stored /\
  localStorage (snd (loadKey w)) = localStorage w /\
  getStoredApiKey (snd (loadKey w)) = stored /\
  ai (snd (loadKey w)) =
    match stored with
    | Some k =>
        match constructorThrows k with
        | None => Some (mkClient k)
        | Some _ => None
        end
    | None => None
    end.
Proof.
  unfold getStoredApiKey, loadApiKeyFromStorage. intros Hs Hne. rewrite Hs.
  destruct stored as [k|]; [|simpl; auto].
  destruct k as [|c k]; [congruence|]. simpl.
  destruct (constructorThrows (c :: k)); simpl; auto.
Qed.

Lemma loadKey_storage (w : World) : localStorage (snd (loadKey w)) = localStorage w.
Proof.
  unfold loadApiKeyFromStorage.
  destruct (getItem GEMINI_API_KEY_LOCAL_STORAGE_KEY w) as [k|]; [|reflexivity].
  destruct (truthy k); [|reflexivity].
  destruct (constructorThrows k); reflexivity.
Qed.

Lemma loadKey_backed (w : World) : clientIsBacked (snd (loadKey w)).
Proof.
  unfold clientIsBacked, loadApiKeyFromStorage.
  destruct (getItem GEMINI_API_KEY_LOCAL_STORAGE_KEY w) as [k|] eqn:E;
    [|simpl; congruence].
  destruct (truthy k); [|simpl; congruence].
  destruct (constructorThrows k); simpl; [congruence|].
  intros _. unfold getItem in *. simpl. congruence.
Qed.

Lemma setKey_backed (key : jsstr) (w : World) : clientIsBacked (snd (setKey key w)).
Proof.
  unfold clientIsBacked, setGeminiApiKey.
  destruct (negb (truthy key) || jsstr_eqb (trim key) []); [simpl; congruence|].
  destruct (constructorThrows key); simpl; [congruence|].
  intros _. rewrite getItem_setItem. discriminate.
Qed.

Lemma clear_backed (w : World) : clientIsBacked (clearGeminiApiKey w).
Proof. unfold clientIsBacked, clearGeminiApiKey. simpl. congruence. Qed.

End CredentialManager.

(** ** The analysis call *)

Section Analysis.

Variable AnalysisData : Type.
Variable JSON_parse : jsstr -> option AnalysisData.
Variable constructorThrows : jsstr -> option Thrown.
Variable generateContent : GoogleGenAI -> GenerateContentParameters -> RemoteOutcome.
Variable analysisPrompt : jsstr.

Local Abbreviation analyze :=
  (analyzeChartWithGemini JSON_parse constructorThrows generateContent analysisPrompt).
Local Abbreviation request := (buildRequest analysisPrompt).
Local Abbreviation loadKey := (loadApiKeyFromStorage constructorThrows).
Local Abbreviation ensure := (ensureClient constructorThrows).

Lemma includes_nil (p : jsstr) : p <> [] -> includes [] p = false.
Proof. destruct p; [congruence|reflexivity]. Qed.

(** The handler on a message that carries one of the two signals. *)
Lemma invalidKeySignal_hit (m : jsstr) :
  includes (toLowerCase m) SIGNAL_INVALID = true \/
  includes (toLowerCase m) SIGNAL_NOT_VALID = true ->
  invalidKeySignal (Some m) = Some true.
Proof.
  intros H. unfold invalidKeySignal.
  destruct (truthy m && includes (toLowerCase m) SIGNAL_NOT_VALID) eqn:E;
    [reflexivity|].
  destruct H as [H|H]; [rewrite H; reflexivity|].
  rewrite H, andb_true_r in E. destruct m; [discriminate H|discriminate E].
Qed.

Lemma ensure_storage (w : World) :
  localStorage (snd (ensure w)) = localStorage w /\
  network (snd (ensure w)) = network w /\
  ai (snd (ensure w)) = fst (ensure w).
Proof.
  unfold ensureClient. destruct (ai w) as [c|] eqn:Ea; [simpl; auto|].
  unfold loadApiKeyFromStorage.
  destruct (getItem GEMINI_API_KEY_LOCAL_STORAGE_KEY w) as [k|]; [|simpl; auto].
  destruct (truthy k) eqn:Ek; [|simpl; auto].
  destruct (constructorThrows k); simpl; rewrite Ek; simpl; auto.
Qed.

Lemma ensure_backed (w : World) : clientIsBacked w -> clientIsBacked (snd (ensure w)).
Proof.
  unfold ensureClient. destruct (ai w) as [c|] eqn:Ea; [simpl; auto|].
  intros _. pose proof (loadKey_backed constructorThrows w) as H.
  destruct (loadKey w) as [k w1]. simpl in *.
  destruct (negb (truthy_opt k)); exact H.
Qed.

Lemma handler_world (error : Thrown) (w : World) :
  localStorage (snd (handler (AnalysisData := AnalysisData) error w)) = localStorage w /\
  network (snd (handler (AnalysisData := AnalysisData) error w)) = network w /\
  (ai (snd (handler (AnalysisData := AnalysisData) error w)) = ai w \/
   ai (snd (handler (AnalysisData := AnalysisData) error w)) = None).
Proof.
  unfold handler. destruct (invalidKeySignal (message error)) as [[|]|]; simpl; auto.
  destruct (quotaSignal (message error)); simpl; auto.
Qed.

Lemma analyze_backed (img mime : jsstr) (w : World) :
  clientIsBacked w -> clientIsBacked (snd (analyze img mime w)).
Proof.
  intros Hw. unfold analyzeChartWithGemini.
  pose proof (ensure_backed w Hw) as He.
  destruct (ensure w) as [[client|] w1]; simpl in *; [|exact He].
  destruct (tryBody JSON_parse (generateContent client (request img mime)))
    as [d|error]; simpl.
  - exact He.
  - pose proof (handler_world error (send (request img mime) w1)) as (Hs & _ & Ha).
    unfold clientIsBacked, getItem in *. rewrite Hs. simpl in *.
    destruct Ha as [Ha|Ha]; rewrite Ha; [exact He|congruence].
Qed.

Lemma analyze_storage (img mime : jsstr) (w : World) :
  localStorage (snd (analyze img mime w)) = localStorage w.
Proof.
  unfold analyzeChartWithGemini. destruct (ensure_storage w) as (Hs & _ & _).
  destruct (ensure w) as [[client|] w1]; simpl in *; [|exact Hs].
  destruct (tryBody JSON_parse (generateContent client (request img mime)))
    as [d|error]; simpl; [exact Hs|].
  destruct (handler_world error (send (request img mime) w1)) as (Hh & _ & _).
  rewrite Hh. exact Hs.
Qed.

(** The module never stores the empty string: a stored key that is a
    credential stays one through every operation. *)
Lemma stored_key_is_credential_preserved (w : World) (key img mime : jsstr) :
  storedKeyIsCredential w ->
  storedKeyIsCredential (snd (setGeminiApiKey constructorThrows key w)) /\
  storedKeyIsCredential (snd (loadKey w)) /\
  storedKeyIsCredential (clearGeminiApiKey w) /\
  storedKeyIsCredential (snd (analyze img mime w)).
Proof.
  intros Hw. unfold storedKeyIsCredential in *. repeat split.
  - unfold setGeminiApiKey.
    destruct (truthy key) eqn:Ek; cbn [negb orb].
    + destruct (jsstr_eqb (trim key) []); cbn [snd].
      * rewrite getItem_removeItem. discriminate.
      * destruct (constructorThrows key); cbn [snd].
        -- exact Hw.
        -- rewrite getItem_setItem. destruct key; [discriminate Ek|discriminate].
    + cbn [snd]. rewrite getItem_removeItem. discriminate.
  - unfold getItem in *. rewrite loadKey_storage. exact Hw.
  - unfold clearGeminiApiKey. rewrite getItem_removeItem. discriminate.
  - unfold getItem in *. rewrite analyze_storage. exact Hw.
Qed.

(** C10. Every operation that writes the client keeps it backed: from a
    world in which a live client has a stored key behind it,
    [setGeminiApiKey], [loadApiKeyFromStorage], [clearGeminiApiKey] and
    [analyzeChartWithGemini] (its invalidation of the client included) all
    end in such a world. *)
Theorem client_backed_preserved (w : World) (key img mime : jsstr) :
  clientIsBacked w ->
  clientIsBacked (snd (setGeminiApiKey constructorThrows key w)) /\
  clientIsBacked (snd (loadKey w)) /\
  clientIsBacked (clearGeminiApiKey w) /\
  clientIsBacked (snd (analyze img mime w)).
Proof.
  intros Hw. repeat split.
  - apply setKey_backed.
  - apply loadKey_backed.
  - apply clear_backed.
  - apply analyze_backed. exact Hw.
Qed.

(** C4. When there is no client and the one reload from storage leaves
    none, [analyzeChartWithGemini] throws the not-initialized error and
    sends nothing to the remote service. *)
Theorem analyze_not_authenticated (img mime : jsstr) (w : World) :
  isGeminiClientInitialized w = false ->
  isGeminiClientInitialized (snd (loadKey w)) = false ->
  fst (analyze img mime w) = Throw (Error MSG_NOT_INITIALIZED) /\
  network (snd (analyze img mime w)) = network w.
Proof.
  unfold isGeminiClientInitialized, analyzeChartWithGemini, ensureClient.
  destruct (ai w); [discriminate|]. intros _ Hl.
  assert (Hn : network (snd (loadKey w)) = network w).
  { unfold loadApiKeyFromStorage.
    destruct (getItem _ w) as [k|]; [|reflexivity].
    destruct (truthy k); [|reflexivity].
    destruct (constructorThrows k); reflexivity. }
  destruct (loadKey w) as [k w1]. simpl in *.
  destruct (ai w1); [discriminate|].
  destruct (negb (truthy_opt k)); simpl; auto.
Qed.

(** C1. When the call reaches the remote service and the request is
    rejected with a message that contains, whatever its case, one of the
    two invalid-key signals, [analyzeChartWithGemini] throws the
    invalid-key error and leaves no client. *)
Theorem analyze_auth_rejected (img mime : jsstr) (w : World)
    (client : GoogleGenAI) (error : Thrown) (m : jsstr) :
  fst (ensure w) = Some client ->
  generateContent client (request img mime) = Rejected error ->
  message error = Some m ->
  includes (toLowerCase m) SIGNAL_INVALID = true \/
  includes (toLowerCase m) SIGNAL_NOT_VALID = true ->
  fst (analyze img mime w) = Throw (Error MSG_INVALID_KEY) /\
  isGeminiClientInitialized (snd (analyze img mime w)) = false.
Proof.
  intros He Hg Hm Hsig. unfold analyzeChartWithGemini.
  destruct (ensure w) as [c w1]. simpl in He. subst c.
  rewrite Hg. simpl. unfold handler. rewrite Hm.
  rewrite (invalidKeySignal_hit m Hsig). simpl. auto.
Qed.

(** C3, as the code has it. When the call reaches the remote service and
    the response has no text (undefined, or the empty string), the
    empty-response error is thrown into the handler of the call, which
    wraps it: [analyzeChartWithGemini] throws the generic error whose
    message is the generic prefix followed by the empty-response message.
    The client and the storage stay as the guard left them. *)
Theorem analyze_empty_response_wrapped (img mime : jsstr) (w : World)
    (client : GoogleGenAI) (text : option jsstr) :
  fst (ensure w) = Some client ->
  generateContent client (request img mime) = Responded text ->
  truthy_opt text = false ->
  fst (analyze img mime w) = Throw (Error (MSG_GENERIC ++ MSG_EMPTY_RESPONSE)) /\
  ai (snd (analyze img mime w)) = Some client /\
  localStorage (snd (analyze img mime w)) = localStorage w.
Proof.
  intros He Hg Ht. unfold analyzeChartWithGemini.
  destruct (ensure_storage w) as (Hs & _ & Ha).
  destruct (ensure w) as [c w1]. simpl in *. subst c.
  rewrite Hg. simpl.
  assert (Hb : (match text with
                | Some t => if truthy t then parseResponse JSON_parse t
                            else inr (mkThrown (Some MSG_EMPTY_RESPONSE))
                | None => inr (mkThrown (Some MSG_EMPTY_RESPONSE))
                end) = inr (mkThrown (Some MSG_EMPTY_RESPONSE))).
  { destruct text as [t|]; [|reflexivity]. simpl in Ht. rewrite Ht. reflexivity. }
  rewrite Hb. cbv beta iota. split; [reflexivity|]. split; [exact Ha|exact Hs].
Qed.

(** The parse error on its way to the caller. When the call reaches the
    remote service, the response has a text that [JSON.parse] refuses
    (after the fences are stripped), and the parse-error message built
    from it carries neither an invalid-key signal nor the quota signal,
    [analyzeChartWithGemini] throws the generic error whose message is
    the generic prefix, the parse-error prefix, the first 200 code units
    of the response at most, and the ellipsis. The client and the storage
    stay as the guard left them. *)
Lemma analyze_malformed_wrapped (img mime : jsstr) (w : World)
    (client : GoogleGenAI) (text : jsstr) :
  fst (ensure w) = Some client ->
  generateContent client (request img mime) = Responded (Some text) ->
  text <> [] ->
  JSON_parse (extractJson text) = None ->
  let parseError := MSG_PARSE_FAILED ++ substring0 200 text ++ ELLIPSIS in
  invalidKeySignal (Some parseError) = Some false ->
  quotaSignal (Some parseError) = false ->
  fst (analyze img mime w) = Throw (Error (MSG_GENERIC ++ parseError)) /\
  length (substring0 200 text) <= 200 /\
  ai (snd (analyze img mime w)) = Some client /\
  localStorage (snd (analyze img mime w)) = localStorage w.
Proof.
  intros He Hg Hne Hp parseError Hk Hq. unfold analyzeChartWithGemini.
  destruct (ensure_storage w) as (Hs & _ & Ha).
  destruct (ensure w) as [c w1]. simpl in He, Hs, Ha. subst c.
  rewrite Hg. unfold tryBody.
  replace (truthy text) with true by (destruct text; [congruence|reflexivity]).
  unfold parseResponse. rewrite Hp. fold parseError.
  unfold handler. cbv beta iota delta [message].
  rewrite Hk, Hq.
  assert (Hm : messageOrUnknown (Some parseError) = parseError) by reflexivity.
  rewrite Hm. cbv beta iota. split; [reflexivity|].
  split; [unfold substring0; rewrite length_take; lia|].
  split; [exact Ha|exact Hs].
Qed.

(** The parse error when its message carries an invalid-key signal: the
    handler takes it for a rejected key, throws the invalid-key error and
    drops the client. *)
Lemma analyze_malformed_signal (img mime : jsstr) (w : World)
    (client : GoogleGenAI) (text : jsstr) :
  fst (ensure w) = Some client ->
  generateContent client (request img mime) = Responded (Some text) ->
  text <> [] ->
  JSON_parse (extractJson text) = None ->
  let parseError := MSG_PARSE_FAILED ++ substring0 200 text ++ ELLIPSIS in
  includes (toLowerCase parseError) SIGNAL_INVALID = true \/
  includes (toLowerCase parseError) SIGNAL_NOT_VALID = true ->
  fst (analyze img mime w) = Throw (Error MSG_INVALID_KEY) /\
  isGeminiClientInitialized (snd (analyze img mime w)) = false.
Proof.
  intros He Hg Hne Hp parseError Hsig. unfold analyzeChartWithGemini.
  destruct (ensure w) as [c w1]. simpl in He. subst c.
  rewrite Hg. unfold tryBody.
  replace (truthy text) with true by (destruct text; [congruence|reflexivity]).
  unfold parseResponse. rewrite Hp. fold parseError.
  unfold handler. cbv beta iota delta [message].
  rewrite (invalidKeySignal_hit parseError Hsig). simpl. auto.
Qed.

(** A rejection whose message is a string with neither signal is thrown again under the generic prefix,
    the empty message replaced by the placeholder. *)
Lemma analyze_transport_failure (img mime : jsstr) (w : World)
    (client : GoogleGenAI) (error : Thrown) (m : jsstr) :
  fst (ensure w) = Some client ->
  generateContent client (request img mime) = Rejected error ->
  message error = Some m ->
  includes (toLowerCase m) SIGNAL_INVALID = false ->
  includes (toLowerCase m) SIGNAL_NOT_VALID = false ->
  includes m SIGNAL_QUOTA = false ->
  fst (analyze img mime w) =
    Throw (Error (MSG_GENERIC ++ (if truthy m then m else MSG_UNKNOWN))) /\
  ai (snd (analyze img mime w)) = Some client.
Proof.
  intros He Hg Hm H1 H2 H3. unfold analyzeChartWithGemini.
  destruct (ensure_storage w) as (_ & _ & Ha).
  destruct (ensure w) as [c w1]. simpl in *. subst c.
  rewrite Hg. simpl. unfold handler, invalidKeySignal, quotaSignal. rewrite Hm.
  rewrite H1, H2, H3, !andb_false_r. simpl. auto.
Qed.

End Analysis.

(** ** The matcher: what a match consumes *)

Lemma orElse_Some (a b : option MatchState) (z : MatchState) :
  orElse a b = Some z -> a = Some z \/ b = Some z.
Proof. destruct a; simpl; auto. Qed.

Lemma charMatcher_sound (p : ascii -> bool) (x : MatchState) (c : Continuation)
    (z : MatchState) :
  charMatcher p x c = Some z ->
  exists b t, rest x = b :: t /\ p b = true /\
              c (mkState (S (endIndex x)) t (captures x)) = Some z.
Proof.
  unfold charMatcher. destruct (rest x) as [|b t]; [discriminate|].
  destruct (p b) eqn:Hp; [|discriminate]. eauto.
Qed.

Lemma repeat_sound (m : Matcher) (gs : list nat) (g : bool) (c : Continuation)
    (R : jsstr -> jsstr -> Prop) :
  (forall x k z, m x k = Some z -> exists y, R (rest x) (rest y) /\ k y = Some z) ->
  forall fuel x z,
    RepeatMatcher m gs g c fuel x = Some z ->
    exists y, rtc R (rest x) (rest y) /\ c y = Some z.
Proof.
  intros Hm. induction fuel as [|fuel IH]; intros x z; simpl.
  - intros H. exists x. split; [constructor|exact H].
  - intros H.
    assert (Hcase : c x = Some z \/
      m (resetCaptures gs x)
        (fun y => if Nat.eqb (endIndex y) (endIndex x) then None
                  else RepeatMatcher m gs g c fuel y) = Some z).
    { destruct g; apply orElse_Some in H; tauto. }
    destruct Hcase as [Hc|Hi].
    + exists x. split; [constructor|exact Hc].
    + apply Hm in Hi as (y1 & HR & Hd). simpl in HR.
      destruct (Nat.eqb (endIndex y1) (endIndex x)); [discriminate|].
      apply IH in Hd as (y & Hrtc & Hc).
      exists y. split; [|exact Hc]. eapply rtc_l; eassumption.
Qed.

(** Soundness of the matcher: a successful match hands the continuation a
    state whose remaining input is what the pattern leaves. *)
Lemma matcher_sound (r : Regex) :
  forall x c z, matcher r x c = Some z ->
  exists y, den r (rest x) (rest y) /\ c y = Some z.
Proof.
  induction r as [| |a|p| |r1 IH1 r2 IH2|g r IH|r IH|i r IH]; intros x c z; simpl.
  - destruct (Nat.eqb (endIndex x) 0); [|discriminate]. intros H. exists x. auto.
  - destruct (rest x) eqn:E; [|discriminate]. intros H. exists x. rewrite E. auto.
  - intros H. apply charMatcher_sound in H as (b & t & Hr & Hp & Hc).
    apply Ascii.eqb_eq in Hp. subst b. eexists. split; [|exact Hc]. exact Hr.
  - intros H. apply charMatcher_sound in H as (b & t & Hr & Hp & Hc).
    eexists. split; [|exact Hc]. simpl. eauto.
  - intros H. apply charMatcher_sound in H as (b & t & Hr & Hp & Hc).
    eexists. split; [|exact Hc]. simpl. eauto.
  - intros H. apply IH1 in H as (y1 & H1 & H). apply IH2 in H as (y & H2 & H).
    exists y. split; [|exact H]. eauto.
  - intros H. eapply repeat_sound in H; [exact H|]. exact IH.
  - intros H. apply orElse_Some in H as [H|H].
    + apply IH in H as (y & Hd & H). simpl in Hd.
      destruct (Nat.eqb (endIndex y) (endIndex x)); [discriminate|]. eauto.
    + exists x. auto.
  - intros H. apply IH in H as (y & Hd & H). eexists. split; [|exact H]. exact Hd.
Qed.

Lemma rtc_class (p : ascii -> bool) (s s' : jsstr) :
  rtc (den (Cls p)) s s' ->
  exists w, Forall (fun c => p c = true) w /\ s = w ++ s'.
Proof.
  induction 1 as [s|s m s' (b & Hb & ->) _ (w & Hw & ->)].
  - exists []. split; [constructor|reflexivity].
  - exists (b :: w). split; [constructor; assumption|reflexivity].
Qed.

(** What [fenceTail] accepts: white space up to the closing fence, which
    ends the input. *)
Lemma fenceTail_sound (x : MatchState) (c : Continuation) (z : MatchState) :
  matcher fenceTail x c = Some z ->
  exists w, Forall (fun b => isWhiteSpace b = true) w /\ rest x = w ++ str "```".
Proof.
  intros H. apply matcher_sound in H as (y & Hd & _).
  destruct Hd as (m1 & Hopt & m2 & Hstar & Hlit).
  apply rtc_class in Hstar as (w & Hw & ->).
  assert (Hm2 : m2 = str "```").
  { simpl in Hlit. destruct Hlit as (a1 & -> & a2 & -> & a3 & -> & -> & _). reflexivity. }
  subst m2. destruct Hopt as [Ho|Ho].
  - exists w. split; [exact Hw|]. congruence.
  - exists (LF :: w). split; [constructor; [reflexivity|exact Hw]|]. exact Ho.
Qed.

(** ** The matcher: the first match *)

Lemma charMatcher_stuck (p : ascii -> bool) (i : nat) (s : jsstr)
    (caps : list (nat * jsstr)) (c : Continuation) :
  stopsAt p s -> charMatcher p (mkState i s caps) c = None.
Proof. unfold charMatcher. destruct s as [|b t]; simpl; [auto|]. intros ->. reflexivity. Qed.

(** A star over a class that cannot take the next character matches the
    empty string, greedy or not. *)
Lemma repeat_class_stuck (m : Matcher) (p : ascii -> bool) (g : bool)
    (c : Continuation) (fuel i : nat) (s : jsstr) (caps : list (nat * jsstr)) :
  (forall x k, m x k = charMatcher p x k) ->
  stopsAt p s ->
  RepeatMatcher m [] g c fuel (mkState i s caps) = c (mkState i s caps).
Proof.
  intros Hm Hs. destruct fuel as [|fuel]; cbn [RepeatMatcher]; [reflexivity|].
  rewrite Hm. unfold resetCaptures. cbn [forget endIndex rest captures].
  rewrite (charMatcher_stuck p i s caps _ Hs).
  destruct g; cbn [orElse]; [reflexivity|]. destruct (c (mkState i s caps)); reflexivity.
Qed.

(** A greedy star over a class takes the longest run first: when the
    continuation accepts after the whole run, that is the match. *)
Lemma repeat_class_greedy (m : Matcher) (p : ascii -> bool) (c : Continuation)
    (z : MatchState) (caps : list (nat * jsstr)) (s' : jsstr) :
  (forall x k, m x k = charMatcher p x k) ->
  stopsAt p s' ->
  forall (w : jsstr) (i fuel : nat),
    Forall (fun b => p b = true) w ->
    length w <= fuel ->
    c (mkState (i + length w) s' caps) = Some z ->
    RepeatMatcher m [] true c fuel (mkState i (w ++ s') caps) = Some z.
Proof.
  intros Hm Hs. induction w as [|a w IH]; intros i fuel Hw Hf Hc.
  - cbn [app length] in *. rewrite Nat.add_0_r in Hc.
    rewrite (repeat_class_stuck m p) by assumption. exact Hc.
  - destruct fuel as [|fuel]; [cbn [length] in Hf; lia|].
    apply Forall_cons in Hw as [Ha Hw]. cbn [RepeatMatcher].
    rewrite Hm. unfold resetCaptures, charMatcher.
    cbn [forget endIndex rest captures app]. rewrite Ha.
    replace (Nat.eqb (S i) i) with false by (symmetry; apply Nat.eqb_neq; lia).
    rewrite (IH (S i) fuel Hw); [reflexivity|cbn [length] in Hf; lia|].
    rewrite <- Hc. f_equal. f_equal. cbn [length]. lia.
Qed.

(** A lazy star over the dot stops at the first position at which the
    continuation accepts. *)
Lemma repeat_dot_lazy (m : Matcher) (c : Continuation) (z : MatchState)
    (caps : list (nat * jsstr)) (s' : jsstr) :
  (forall x k, m x k = charMatcher (fun _ => true) x k) ->
  forall (u : jsstr) (i fuel : nat),
    length u <= fuel ->
    (forall j, j < length u -> c (mkState (i + j) (drop j (u ++ s')) caps) = None) ->
    c (mkState (i + length u) s' caps) = Some z ->
    RepeatMatcher m [] false c fuel (mkState i (u ++ s') caps) = Some z.
Proof.
  intros Hm. induction u as [|a u IH]; intros i fuel Hf Hnone Hc.
  - cbn [app length] in *. rewrite Nat.add_0_r in Hc.
    destruct fuel; cbn [RepeatMatcher]; rewrite Hc; reflexivity.
  - destruct fuel as [|fuel]; [cbn [length] in Hf; lia|]. cbn [RepeatMatcher].
    pose proof (Hnone 0 ltac:(cbn [length]; lia)) as H0.
    rewrite Nat.add_0_r, drop_0 in H0. rewrite H0. cbn [orElse].
    rewrite Hm. unfold resetCaptures, charMatcher.
    cbn [forget endIndex rest captures app].
    replace (Nat.eqb (S i) i) with false by (symmetry; apply Nat.eqb_neq; lia).
    apply IH.
    + cbn [length] in Hf. lia.
    + intros j Hj. specialize (Hnone (S j) ltac:(cbn [length]; lia)).
      rewrite <- Hnone. f_equal. f_equal. lia.
    + rewrite <- Hc. f_equal. f_equal. cbn [length]. lia.
Qed.

Lemma backtick_not_space : isWhiteSpace BACKTICK = false.
Proof. reflexivity. Qed.

Lemma LF_is_space : isWhiteSpace LF = true.
Proof. reflexivity. Qed.

Lemma LF_not_word : isWordChar LF = false.
Proof. reflexivity. Qed.

(** The tail of the pattern without its optional line feed. *)
Lemma fenceTail_blank_run (u : jsstr) (i : nat) (caps : list (nat * jsstr)) :
  Forall (fun b => isWhiteSpace b = true) u ->
  exists z,
    matcher (Cat (Star true (Cls isWhiteSpace)) (lit (str "```") Eol))
      (mkState i (u ++ str "```") caps) Some = Some z /\
    captures z = caps.
Proof.
  intros Hu. eexists. split.
  - cbn [matcher]. apply (repeat_class_greedy _ isWhiteSpace).
    + reflexivity.
    + exact backtick_not_space.
    + exact Hu.
    + cbn [rest]. rewrite length_app. lia.
    + reflexivity.
  - reflexivity.
Qed.

(** An optional character in front of a pattern: taken first when it is
    there, left out when the rest then fails. *)
Lemma opt_chr_unfold (a : ascii) (k : Regex) (i : nat) (s : jsstr)
    (caps : list (nat * jsstr)) (c : Continuation) :
  matcher (Cat (Opt (Chr a)) k) (mkState i s caps) c =
  match s with
  | b :: t =>
      if Ascii.eqb a b
      then orElse (matcher k (mkState (S i) t caps) c) (matcher k (mkState i s caps) c)
      else matcher k (mkState i s caps) c
  | [] => matcher k (mkState i s caps) c
  end.
Proof.
  cbn [matcher groups]. unfold resetCaptures, charMatcher.
  cbn [forget endIndex rest captures].
  destruct s as [|b t]; [reflexivity|].
  destruct (Ascii.eqb a b); [|reflexivity].
  replace (Nat.eqb (S i) i) with false by (symmetry; apply Nat.eqb_neq; lia).
  reflexivity.
Qed.

(** [fenceTail] accepts every run of white space followed by the closing
    fence, and keeps the captures. *)
Lemma fenceTail_accepts (u : jsstr) (i : nat) (caps : list (nat * jsstr)) :
  Forall (fun b => isWhiteSpace b = true) u ->
  exists z,
    matcher fenceTail (mkState i (u ++ str "```") caps) Some = Some z /\
    captures z = caps.
Proof.
  intros Hu. unfold fenceTail. rewrite opt_chr_unfold.
  destruct u as [|b u].
  - apply (fenceTail_blank_run [] i caps). constructor.
  - cbn [app]. destruct (Ascii.eqb LF b) eqn:Eb.
    + pose proof Hu as Hu'. apply Forall_cons in Hu' as [_ Hu'].
      destruct (fenceTail_blank_run u (S i) caps Hu') as (z & Hz & Hcap).
      exists z. rewrite Hz. auto.
    + apply (fenceTail_blank_run (b :: u) i caps Hu).
Qed.

(** ** The fence pattern on a fenced text *)

(** The second group on a body that ends with a character that is not
    white space: the lazy star stops at the end of the body, the first
    position from which only white space separates it from the closing
    fence. *)
Lemma fence_body (i : nat) (caps : list (nat * jsstr)) (pre : jsstr) (l : ascii)
    (trail : jsstr) :
  isWhiteSpace l = false ->
  Forall (fun b => isWhiteSpace b = true) trail ->
  exists z,
    matcher (Cat (Grp 2 (Star false Dot_s)) fenceTail)
      (mkState i ((pre ++ [l]) ++ trail ++ str "```") caps) Some = Some z /\
    captures z = (2, pre ++ [l]) :: caps.
Proof.
  intros Hl Ht.
  destruct (fenceTail_accepts trail (i + length (pre ++ [l]))
              ((2, pre ++ [l]) :: caps) Ht) as (z & Hz & Hcap).
  exists z. split; [|exact Hcap].
  cbn [matcher groups rest endIndex].
  apply (repeat_dot_lazy _ _ z caps).
  - reflexivity.
  - rewrite !length_app. lia.
  - intros j Hj. cbn beta. cbn [endIndex rest captures].
    match goal with |- ?m = None => destruct m as [z'|] eqn:E; [exfalso|reflexivity] end.
    apply fenceTail_sound in E as (w & Hw & E). cbn [rest] in E.
    rewrite length_app in Hj. cbn [length] in Hj.
    rewrite <- !app_assoc in E. rewrite drop_app_le in E by lia.
    rewrite !app_assoc in E. apply app_inv_tail in E. subst w.
    apply Forall_app in Hw as [Hw _]. apply Forall_app in Hw as [_ Hw].
    apply Forall_cons in Hw as [Hw _]. congruence.
  - cbn beta. cbn [endIndex rest captures].
    replace (i + length (pre ++ [l]) - i) with (length (pre ++ [l])) by lia.
    rewrite take_app_length. exact Hz.
Qed.

Lemma not_space_not_LF (b : ascii) : isWhiteSpace b = false -> Ascii.eqb LF b = false.
Proof.
  intros Hb. destruct (Ascii.eqb LF b) eqn:E; [|reflexivity].
  apply Ascii.eqb_eq in E. subst b. discriminate Hb.
Qed.

(** The pattern after the tag, on blanks, a body and blanks before the
    closing fence: the greedy star takes the leading blanks, and the second
    group is the body. *)
Lemma fence_after_tag (i : nat) (caps : list (nat * jsstr))
    (lead : jsstr) (b : ascii) (body : jsstr) (l : ascii) (trail : jsstr) :
  Forall (fun c => isWhiteSpace c = true) lead ->
  isWhiteSpace b = false ->
  last (b :: body) = Some l ->
  isWhiteSpace l = false ->
  Forall (fun c => isWhiteSpace c = true) trail ->
  exists z,
    matcher fenceAfterTag
      (mkState i (lead ++ (b :: body) ++ trail ++ str "```") caps) Some = Some z /\
    captures z = (2, b :: body) :: caps.
Proof.
  intros Hlead Hb Hlast Hl Ht.
  apply last_Some in Hlast as (pre & Hpre).
  destruct (fence_body (i + length lead) caps pre l trail Hl Ht) as (z & Hz & Hcap).
  rewrite <- Hpre in Hz, Hcap.
  exists z. split; [|exact Hcap].
  unfold fenceAfterTag.
  change (matcher (Cat (Star true (Cls isWhiteSpace)) ?k) ?x ?c)
    with (RepeatMatcher (matcher (Cls isWhiteSpace)) [] true
            (fun y => matcher k y c) (length (rest x)) x).
  apply (repeat_class_greedy _ isWhiteSpace).
  - reflexivity.
  - exact Hb.
  - exact Hlead.
  - cbn [rest]. rewrite length_app. lia.
  - rewrite opt_chr_unfold. cbn [app].
    rewrite (not_space_not_LF b Hb). exact Hz.
Qed.

(** The optional tag: the greedy star of the first group takes the whole
    tag; an empty tag is an empty iteration, which the quantifier refuses,
    and the group is then left out. *)
Lemma fence_tag (k : Regex) (i : nat) (tag s' : jsstr) (c : Continuation)
    (z : MatchState) :
  Forall (fun b => isWordChar b = true) tag ->
  stopsAt isWordChar s' ->
  (forall caps, exists z', matcher k (mkState (i + length tag) s' caps) c = Some z' /\
                          group 2 z' = group 2 z) ->
  exists z',
    matcher (Cat (Opt (Grp 1 (Star true (Cls isWordChar)))) k)
      (mkState i (tag ++ s') []) c = Some z' /\
    group 2 z' = group 2 z.
Proof.
  intros Htag Hs Hk.
  change (matcher (Cat (Opt (Grp 1 (Star true (Cls isWordChar)))) k)
            (mkState i (tag ++ s') []) c)
    with (orElse
            (RepeatMatcher (matcher (Cls isWordChar)) [] true
               (fun y =>
                  if Nat.eqb (endIndex y) i then None
                  else matcher k
                         (mkState (endIndex y) (rest y)
                            ((1, take (endIndex y - i) (tag ++ s')) :: captures y)) c)
               (length (tag ++ s')) (mkState i (tag ++ s') []))
            (matcher k (mkState i (tag ++ s') []) c)).
  destruct tag as [|a tag].
  - cbn [app]. rewrite (repeat_class_stuck _ isWordChar) by (reflexivity || exact Hs).
    cbn [endIndex]. rewrite Nat.eqb_refl. cbn [orElse].
    destruct (Hk []) as (z' & Hz' & Hg). cbn [length] in Hz'.
    rewrite Nat.add_0_r in Hz'. eauto.
  - destruct (Hk [(1, a :: tag)]) as (z' & Hz' & Hg).
    exists z'. split; [|exact Hg].
    erewrite (repeat_class_greedy _ isWordChar); [reflexivity|reflexivity|exact Hs|exact Htag| |].
    + rewrite length_app. lia.
    + cbn [endIndex rest captures].
      replace (Nat.eqb (i + length (a :: tag)) i) with false
        by (symmetry; apply Nat.eqb_neq; cbn [length]; lia).
      replace (i + length (a :: tag) - i) with (length (a :: tag)) by lia.
      rewrite take_app_length. exact Hz'.
Qed.

Lemma fence_open (k : Regex) (s : jsstr) (c : Continuation) :
  matcher (Cat Bol (lit (str "```") k)) (mkState 0 (str "```" ++ s) []) c =
  matcher k (mkState 3 s []) c.
Proof. reflexivity. Qed.

(** The pattern on a fenced text: it matches, and its second group is the
    text without the blanks around it. *)
Lemma fence_match (tag lead : jsstr) (b : ascii) (body : jsstr) (l : ascii)
    (trail : jsstr) :
  Forall (fun c => isWordChar c = true) tag ->
  Forall (fun c => isWhiteSpace c = true) lead ->
  isWhiteSpace b = false ->
  last (b :: body) = Some l ->
  isWhiteSpace l = false ->
  Forall (fun c => isWhiteSpace c = true) trail ->
  exists z,
    regexMatch fenceRegex (fenced tag (lead ++ (b :: body) ++ trail)) = Some z /\
    group 2 z = Some (b :: body).
Proof.
  intros Htag Hlead Hb Hlast Hl Htrail.
  assert (Hk : forall caps, exists z',
    matcher fenceAfterTag
      (mkState (3 + length tag)
         ((LF :: lead) ++ (b :: body) ++ (trail ++ [LF]) ++ str "```") caps) Some
      = Some z' /\
    group 2 z' = Some (b :: body)).
  { intros caps.
    destruct (fence_after_tag (3 + length tag) caps (LF :: lead) b body l (trail ++ [LF]))
      as (z' & Hz' & Hcap); try assumption.
    - constructor; [reflexivity|exact Hlead].
    - apply Forall_app. split; [exact Htrail|]. constructor; [reflexivity|constructor].
    - exists z'. split; [exact Hz'|]. unfold group. rewrite Hcap. reflexivity. }
  destruct (fence_tag fenceAfterTag 3 tag
              ((LF :: lead) ++ (b :: body) ++ (trail ++ [LF]) ++ str "```") Some
              (mkState 0 [] [(2, b :: body)]) Htag LF_not_word Hk)
    as (z & Hz & Hg).
  exists z. split; [|exact Hg].
  unfold regexMatch, fenced.
  replace (str "```" ++ tag ++ [LF] ++ (lead ++ (b :: body) ++ trail) ++ [LF] ++ str "```")
    with (str "```" ++ tag ++ (LF :: lead) ++ (b :: body) ++ (trail ++ [LF]) ++ str "```")
    by (repeat (progress cbn [app] || rewrite <- app_assoc); reflexivity).
  generalize dependent (tag ++ (LF :: lead) ++ (b :: body) ++ (trail ++ [LF]) ++ str "```").
  intros s Hz. cbn [execFrom app str list_ascii_of_string].
  change (matcher fenceRegex (mkState 0 ("`"%char :: "`"%char :: "`"%char :: s) []) Some)
    with (matcher (Cat Bol (lit (str "```")
                     (Cat (Opt (Grp 1 (Star true (Cls isWordChar)))) fenceAfterTag)))
            (mkState 0 (str "```" ++ s) []) Some).
  rewrite fence_open, Hz. reflexivity.
Qed.

(** The pattern only matches at the start of the input, and there only on
    a backtick. *)
Lemma fenceRegex_later (i : nat) (s : jsstr) (c : Continuation) :
  i <> 0 -> matcher fenceRegex (mkState i s []) c = None.
Proof.
  intros Hi. unfold fenceRegex. cbn [matcher endIndex].
  destruct i; [congruence|reflexivity].
Qed.

Lemma execFrom_later (s : jsstr) (i : nat) : i <> 0 -> execFrom fenceRegex i s = None.
Proof.
  revert i. induction s as [|a s IH]; intros i Hi; cbn [execFrom];
    rewrite (fenceRegex_later i _ Some Hi); [reflexivity|].
  apply IH. lia.
Qed.

Lemma fence_no_match (c : ascii) (s : jsstr) :
  c <> BACKTICK -> regexMatch fenceRegex (c :: s) = None.
Proof.
  intros Hc. unfold regexMatch. cbn [execFrom].
  replace (matcher fenceRegex (mkState 0 (c :: s) []) Some) with (@None MatchState).
  - apply execFrom_later. lia.
  - unfold fenceRegex. cbn [matcher endIndex lit str list_ascii_of_string foldr Nat.eqb].
    unfold charMatcher at 1. cbn [rest].
    destruct (Ascii.eqb "`"%char c) eqn:E; [|reflexivity].
    apply Ascii.eqb_eq in E. subst c. exfalso. apply Hc. reflexivity.
Qed.

(** ** Fence stripping *)

Lemma fenced_last (tag t : jsstr) : last (fenced tag t) = Some BACKTICK.
Proof. unfold fenced. rewrite !last_app. reflexivity. Qed.

Lemma fenced_trim (tag t : jsstr) : trim (fenced tag t) = fenced tag t.
Proof.
  apply (trim_fixed _ BACKTICK BACKTICK
           (str "``" ++ tag ++ [LF] ++ t ++ [LF] ++ str "```")).
  - reflexivity.
  - apply fenced_last.
  - reflexivity.
  - reflexivity.
Qed.

Lemma extractJson_bare (t : jsstr) : bareText t -> extractJson t = trim t.
Proof.
  unfold bareText, extractJson. destruct (trim t) as [|c s]; [contradiction|].
  intros Hc. rewrite (fence_no_match c s Hc). reflexivity.
Qed.

Lemma extractJson_fenced (tag t : jsstr) :
  Forall (fun c => isWordChar c = true) tag ->
  bareText t ->
  extractJson (fenced tag t) = trim t.
Proof.
  intros Htag Ht. unfold extractJson. rewrite fenced_trim.
  destruct (trim_split t) as (lead & trail & Hsplit & Hlead & Htrail).
  unfold bareText in Ht. destruct (trim t) as [|b body] eqn:E; [contradiction|].
  assert (Hl : is_Some (last (b :: body))) by (apply last_is_Some; discriminate).
  destruct Hl as (l & Hl).
  assert (Hb : isWhiteSpace b = false) by exact (trim_head _ _ _ E).
  assert (Hw : isWhiteSpace l = false) by (apply (trim_last t); rewrite E; exact Hl).
  destruct (fence_match tag lead b body l trail Htag Hlead Hb Hl Hw Htrail)
    as (z & Hz & Hg).
  rewrite Hsplit, Hz, Hg. cbn [truthy].
  rewrite <- E. apply trim_idem.
Qed.

(** The parser of the test runs accepts only texts that open with a brace
    after white space, so every text it accepts is a [bareText]. *)
Lemma json_space_is_space (c : ascii) : isJsonSpace c = true -> isWhiteSpace c = true.
Proof.
  unfold isJsonSpace, isWhiteSpace, between. intros H.
  repeat (apply orb_true_iff in H as [H|H]); apply N.eqb_eq in H; rewrite H; reflexivity.
Qed.

Lemma refused_absorbs (s : jsstr) (acc : list (jsstr * jsstr)) :
  fst (foldl parserStep (Refused, acc) s) = Refused.
Proof. revert acc. induction s as [|c s IH]; intros acc; simpl; [reflexivity|apply IH]. Qed.

Lemma flatObjectParse_opens (s : jsstr) (acc d : list (jsstr * jsstr)) :
  foldl parserStep (BeforeObject, acc) s = (AfterObject, d) ->
  exists r, trimStart s = "{"%char :: r.
Proof.
  induction s as [|c s IH]; cbn [foldl]; [discriminate|].
  cbn [parserStep]. destruct (isJsonSpace c) eqn:Ej.
  - intros H. cbn [trimStart]. rewrite (json_space_is_space c Ej). exact (IH H).
  - destruct (Ascii.eqb c "{"%char) eqn:Eb.
    + apply Ascii.eqb_eq in Eb. subst c. intros _. exists s. reflexivity.
    + intros H. pose proof (refused_absorbs s acc) as Hr. rewrite H in Hr. discriminate Hr.
Qed.

Lemma flatObjectParse_bare (s : jsstr) (d : list (jsstr * jsstr)) :
  flatObjectParse s = Some d -> bareText s.
Proof.
  unfold flatObjectParse. intros H.
  destruct (foldl parserStep (BeforeObject, []) s) as [st acc] eqn:E.
  destruct st; try discriminate H.
  destruct (flatObjectParse_opens s [] acc E) as (r & Hr).
  unfold bareText, trim. rewrite Hr.
  destruct (trimEnd_keeps_head "{"%char r eq_refl) as (r' & ->). discriminate.
Qed.

Section FenceStripping.

Variable AnalysisData : Type.
Variable JSON_parse : jsstr -> option AnalysisData.

(** C5. For every text that opens as a JSON text does, and every language
    tag of word characters (the empty one included), the fence is stripped:
    the string handed to [JSON.parse] for the fenced text is the text
    itself without the white space around it, the same string as for the
    bare text. Hence whenever [JSON.parse] builds a record from that
    string, the decoding step returns this record on the fenced text and on
    the bare text; and in all cases it returns a record on the one exactly
    when it returns that record on the other. *)
Theorem fence_stripping (tag t : jsstr) :
  Forall (fun c => isWordChar c = true) tag ->
  bareText t ->
  extractJson (fenced tag t) = trim t /\
  extractJson t = trim t /\
  (forall d : AnalysisData,
      JSON_parse (trim t) = Some d ->
      parseResponse JSON_parse (fenced tag t) = inl d /\
      parseResponse JSON_parse t = inl d) /\
  (forall d : AnalysisData,
      parseResponse JSON_parse (fenced tag t) = inl d <->
      parseResponse JSON_parse t = inl d).
Proof.
  intros Htag Ht.
  pose proof (extractJson_fenced tag t Htag Ht) as Hf.
  pose proof (extractJson_bare t Ht) as Hb.
  split; [exact Hf|]. split; [exact Hb|]. split.
  - intros d Hd. unfold parseResponse. rewrite Hf, Hb, Hd. split; reflexivity.
  - intros d. unfold parseResponse. rewrite Hf, Hb.
    destruct (JSON_parse (trim t)); split; intros H;
      first [exact H | discriminate H].
Qed.

(** The same for the texts of a parser: when [JSON.parse] accepts nothing
    that opens with a backtick, every text it accepts reaches it as the
    same string, fenced or bare. *)
Lemma fence_stripping_accepted (tag t : jsstr) (d : AnalysisData) :
  (forall s r, JSON_parse s = Some r -> bareText s) ->
  Forall (fun c => isWordChar c = true) tag ->
  JSON_parse t = Some d ->
  JSON_parse (extractJson (fenced tag t)) = JSON_parse (extractJson t).
Proof.
  intros Hgrammar Htag Ht.
  pose proof (Hgrammar t d Ht) as Hb.
  rewrite (extractJson_fenced tag t Htag Hb), (extractJson_bare t Hb). reflexivity.
Qed.

End FenceStripping.

(** ** The module on concrete inputs *)

Lemma setCredential_success_witness :
  fst (setGeminiApiKey acceptingConstructor testKey freshWorld) = Normal tt /\
  isGeminiClientInitialized (snd (setGeminiApiKey acceptingConstructor testKey freshWorld)) = true /\
  getStoredApiKey (snd (setGeminiApiKey acceptingConstructor testKey freshWorld)) = Some testKey.
Proof.
  apply (setCredential_success acceptingConstructor testKey freshWorld).
  - vm_compute. discriminate.
  - reflexivity.
Defined.

Lemma setCredential_blank_witness :
  fst (setGeminiApiKey acceptingConstructor (str "  ") (readyWorld testKey))
    = Throw (Error MSG_EMPTY_KEY) /\
  isGeminiClientInitialized
    (snd (setGeminiApiKey acceptingConstructor (str "  ") (readyWorld testKey))) = false /\
  getStoredApiKey
    (snd (setGeminiApiKey acceptingConstructor (str "  ") (readyWorld testKey))) = None.
Proof.
  apply (setCredential_blank acceptingConstructor (str "  ") (readyWorld testKey)).
  repeat constructor.
Defined.

(** An empty string under the storage key is not a credential: the
    truthiness test of [loadApiKeyFromStorage] takes it for no key. *)
Lemma loadFromStorage_empty_string :
  loadApiKeyFromStorage acceptingConstructor
    (mkWorld None {[ GEMINI_API_KEY_LOCAL_STORAGE_KEY := [] ]} [])
  = (None, mkWorld None {[ GEMINI_API_KEY_LOCAL_STORAGE_KEY := [] ]} []).
Proof. vm_compute. reflexivity. Qed.

(** The stored key is handed back although the constructor throws. *)
Lemma loadFromStorage_returns_stored_witness :
  fst (loadApiKeyFromStorage throwingConstructor (readyWorld testKey)) = Some testKey /\
  localStorage (snd (loadApiKeyFromStorage throwingConstructor (readyWorld testKey)))
    = localStorage (readyWorld testKey) /\
  getStoredApiKey (snd (loadApiKeyFromStorage throwingConstructor (readyWorld testKey)))
    = Some testKey /\
  ai (snd (loadApiKeyFromStorage throwingConstructor (readyWorld testKey))) = None.
Proof.
  apply (loadFromStorage_returns_stored throwingConstructor (readyWorld testKey)
           (Some testKey)).
  - vm_compute. reflexivity.
  - discriminate.
Defined.

Lemma client_backed_preserved_witness :
  clientIsBacked (snd (setGeminiApiKey acceptingConstructor testKey (readyWorld testKey))) /\
  clientIsBacked (snd (loadApiKeyFromStorage acceptingConstructor (readyWorld testKey))) /\
  clientIsBacked (clearGeminiApiKey (readyWorld testKey)) /\
  clientIsBacked
    (snd (runAnalyze (Rejected (mkThrown (Some (str "API key not valid"))))
            (readyWorld testKey))).
Proof.
  apply (client_backed_preserved _ flatObjectParse acceptingConstructor
           (constantRemote (Rejected (mkThrown (Some (str "API key not valid")))))
           testPrompt (readyWorld testKey) testKey testImage testMime).
  intros _. vm_compute. discriminate.
Defined.

Lemma analyze_not_authenticated_witness :
  fst (runAnalyze (Responded (Some trendsUp)) freshWorld)
    = Throw (Error MSG_NOT_INITIALIZED) /\
  network (snd (runAnalyze (Responded (Some trendsUp)) freshWorld)) = [].
Proof.
  apply (analyze_not_authenticated _ flatObjectParse acceptingConstructor
           (constantRemote (Responded (Some trendsUp))) testPrompt
           testImage testMime freshWorld).
  - reflexivity.
  - vm_compute. reflexivity.
Defined.

Lemma analyze_auth_rejected_witness :
  fst (runAnalyze (Rejected (mkThrown (Some (str "API key not valid"))))
         (readyWorld testKey)) = Throw (Error MSG_INVALID_KEY) /\
  isGeminiClientInitialized
    (snd (runAnalyze (Rejected (mkThrown (Some (str "API key not valid"))))
            (readyWorld testKey))) = false.
Proof.
  apply (analyze_auth_rejected _ flatObjectParse acceptingConstructor
           (constantRemote (Rejected (mkThrown (Some (str "API key not valid")))))
           testPrompt testImage testMime (readyWorld testKey)
           (mkClient testKey) (mkThrown (Some (str "API key not valid")))
           (str "API key not valid")).
  - reflexivity.
  - reflexivity.
  - reflexivity.
  - right. vm_compute. reflexivity.
Defined.

Lemma analyze_empty_response_wrapped_witness :
  fst (runAnalyze (Responded None) (readyWorld testKey))
    = Throw (Error (MSG_GENERIC ++ MSG_EMPTY_RESPONSE)) /\
  ai (snd (runAnalyze (Responded None) (readyWorld testKey))) = Some (mkClient testKey) /\
  localStorage (snd (runAnalyze (Responded None) (readyWorld testKey)))
    = localStorage (readyWorld testKey).
Proof.
  apply (analyze_empty_response_wrapped _ flatObjectParse acceptingConstructor
           (constantRemote (Responded None)) testPrompt testImage testMime
           (readyWorld testKey) (mkClient testKey) None).
  - reflexivity.
  - reflexivity.
  - reflexivity.
Defined.

(** C3 as stated, refuted on an empty response text: the empty-response
    error does not reach the caller as it was thrown, the message that
    arrives has the generic prefix in front. *)
Lemma analyze_empty_response_not_as_is :
  fst (runAnalyze (Responded (Some [])) (readyWorld testKey))
    = Throw (Error (str "Error analyzing chart with Gemini: Received an empty response from the AI.")) /\
  fst (runAnalyze (Responded (Some [])) (readyWorld testKey))
    <> Throw (Error MSG_EMPTY_RESPONSE).
Proof. split; [vm_compute; reflexivity|vm_compute; discriminate]. Qed.

Lemma fence_stripping_witness :
  extractJson (fenced (str "json") trendsUp) = trendsUp /\
  extractJson trendsUp = trendsUp /\
  parseResponse flatObjectParse (fenced (str "json") trendsUp)
    = inl [(str "trends", str "up")] /\
  parseResponse flatObjectParse trendsUp = inl [(str "trends", str "up")].
Proof.
  assert (Hbare : bareText trendsUp) by (vm_compute; discriminate).
  assert (Htag : Forall (fun c => isWordChar c = true) (str "json"))
    by (repeat constructor).
  destruct (fence_stripping _ flatObjectParse (str "json") trendsUp Htag Hbare)
    as (Hf & Hb & Hd & _).
  split; [exact Hf|]. split; [exact Hb|].
  apply Hd. vm_compute. reflexivity.
Defined.

(** The scenario of the specification: the fenced object and the bare one
    decode to the same record, the one with the member trends. *)
Lemma fence_stripping_trends :
  parseResponse flatObjectParse (fenced (str "json") trendsUp)
    = inl [(str "trends", str "up")] /\
  parseResponse flatObjectParse trendsUp = inl [(str "trends", str "up")].
Proof. split; vm_compute; reflexivity. Qed.

(** C2 at a failing input. The response [keyLikeText] is not empty and
    [JSON.parse] refuses it; the parse error built from it is thrown into
    the handler of the call, which finds the invalid-key signal in the
    excerpt: the call throws the invalid-key error, which carries neither
    the excerpt nor the ellipsis, and the client is dropped. *)
Theorem analyze_malformed_reclassified :
  flatObjectParse (extractJson keyLikeText) = None /\
  fst (runAnalyze (Responded (Some keyLikeText)) (readyWorld testKey))
    = Throw (Error MSG_INVALID_KEY) /\
  includes MSG_INVALID_KEY ELLIPSIS = false /\
  isGeminiClientInitialized
    (snd (runAnalyze (Responded (Some keyLikeText)) (readyWorld testKey))) = false.
Proof.
  split; [vm_compute; reflexivity|].
  split; [vm_compute; reflexivity|].
  split; vm_compute; reflexivity.
Qed.

(** The same response text with the word quota in it comes out as the quota
    error. *)
Lemma analyze_malformed_as_quota :
  fst (runAnalyze (Responded (Some (str "quota"))) (readyWorld testKey))
    = Throw (Error (MSG_QUOTA ++ MSG_PARSE_FAILED ++ str "quota" ++ ELLIPSIS)).
Proof. vm_compute. reflexivity. Qed.

(** On the scenario of the specification the parse error arrives under
    the generic prefix, with the excerpt and the ellipsis. *)
Lemma analyze_not_json :
  fst (runAnalyze (Responded (Some (str "not json"))) (readyWorld testKey))
    = Throw (Error (str "Error analyzing chart with Gemini: Failed to parse analysis data from AI. Raw response: not json...")).
Proof. vm_compute. reflexivity. Qed.

(** C6 at a failing input. The remote call is rejected with a value that
    has no message: the first condition of the handler reads [toLowerCase]
    of the undefined message, and the call ends with the TypeError of that
    read instead of the generic error with its placeholder. The client is
    left as it was. *)
Theorem analyze_rejection_without_message :
  fst (runAnalyze (Rejected (mkThrown None)) (readyWorld testKey)) = Throw TypeError /\
  fst (runAnalyze (Rejected (mkThrown None)) (readyWorld testKey))
    <> Throw (Error (MSG_GENERIC ++ MSG_UNKNOWN)) /\
  ai (snd (runAnalyze (Rejected (mkThrown None)) (readyWorld testKey)))
    = Some (mkClient testKey).
Proof.
  split; [vm_compute; reflexivity|].
  split; [vm_compute; discriminate|vm_compute; reflexivity].
Qed.

(** The placeholder is reached when the message is the empty string. *)
Lemma analyze_rejection_empty_message :
  fst (runAnalyze (Rejected (mkThrown (Some []))) (readyWorld testKey))
    = Throw (Error (str "Error analyzing chart with Gemini: Unknown error")).
Proof. vm_compute. reflexivity. Qed.

(** ** More on the service: failure of the constructor, clearing, frames *)

Section ServiceBehaviour.

Variable AnalysisData : Type.
Variable JSON_parse : jsstr -> option AnalysisData.
Variable constructorThrows : jsstr -> option Thrown.
Variable generateContent : GoogleGenAI -> GenerateContentParameters -> RemoteOutcome.
Variable analysisPrompt : jsstr.

Local Abbreviation analyze :=
  (analyzeChartWithGemini JSON_parse constructorThrows generateContent analysisPrompt).
Local Abbreviation request := (buildRequest analysisPrompt).
Local Abbreviation setKey := (setGeminiApiKey constructorThrows).
Local Abbreviation loadKey := (loadApiKeyFromStorage constructorThrows).
Local Abbreviation ensure := (ensureClient constructorThrows).

(** X1. When the constructor throws on a key that is not blank,
    [setGeminiApiKey] throws the initialization error with the message of
    the constructor, leaves no client, and leaves [localStorage] as it was:
    the refused key is not stored and a key stored before stays. *)
Theorem setCredential_construction_failed (key : jsstr) (w : World) (e : Thrown) :
  trim key <> [] ->
  constructorThrows key = Some e ->
  fst (setKey key w) = Throw (Error (MSG_INIT_FAILED ++ interpolate (message e))) /\
  isGeminiClientInitialized (snd (setKey key w)) = false /\
  localStorage (snd (setKey key w)) = localStorage w.
Proof.
  intros Hne He. unfold setGeminiApiKey.
  rewrite (truthy_trim key Hne). unfold jsstr_eqb.
  rewrite bool_decide_eq_false_2 by exact Hne. cbn [negb orb]. rewrite He.
  repeat split.
Qed.

(** X2. [clearGeminiApiKey] leaves no client and no stored key, from any
    world, and clearing twice is clearing once. *)
Theorem clear_idempotent (w : World) :
  isGeminiClientInitialized (clearGeminiApiKey w) = false /\
  getStoredApiKey (clearGeminiApiKey w) = None /\
  clearGeminiApiKey (clearGeminiApiKey w) = clearGeminiApiKey w.
Proof.
  split; [reflexivity|]. split.
  - unfold getStoredApiKey, clearGeminiApiKey. apply getItem_removeItem.
  - unfold clearGeminiApiKey, removeItem, set_ai. cbn [ai localStorage network].
    rewrite delete_delete_eq. reflexivity.
Qed.

(** X3. Setting a key and loading it back: after a successful
    [setGeminiApiKey], [loadApiKeyFromStorage] returns that key and leaves
    the world, client included, as the setting left it. *)
Theorem set_then_load (key : jsstr) (w : World) :
  trim key <> [] ->
  constructorThrows key = None ->
  loadKey (snd (setKey key w)) = (Some key, snd (setKey key w)).
Proof.
  intros Hne Hok. unfold setGeminiApiKey.
  rewrite (truthy_trim key Hne). unfold jsstr_eqb.
  rewrite bool_decide_eq_false_2 by exact Hne. cbn [negb orb]. rewrite Hok. cbn [snd].
  unfold loadApiKeyFromStorage. rewrite getItem_setItem.
  rewrite (truthy_trim key Hne), Hok. reflexivity.
Qed.

Lemma getItem_setItem_ne (k k' v : jsstr) (w : World) :
  k <> k' -> getItem k' (setItem k v w) = getItem k' w.
Proof. intros H. unfold getItem, setItem. cbn [localStorage]. apply lookup_insert_ne. exact H. Qed.

Lemma getItem_removeItem_ne (k k' : jsstr) (w : World) :
  k <> k' -> getItem k' (removeItem k w) = getItem k' w.
Proof. intros H. unfold getItem, removeItem. cbn [localStorage]. apply lookup_delete_ne. exact H. Qed.

(** X4. The module owns one entry of [localStorage]: no operation reads or
    writes another key, so every other entry is after the operation what it
    was before. *)
Theorem other_entries_untouched (k key img mime : jsstr) (w : World) :
  k <> GEMINI_API_KEY_LOCAL_STORAGE_KEY ->
  getItem k (snd (setKey key w)) = getItem k w /\
  getItem k (snd (loadKey w)) = getItem k w /\
  getItem k (clearGeminiApiKey w) = getItem k w /\
  getItem k (snd (analyze img mime w)) = getItem k w.
Proof.
  intros Hk. assert (Hk' : GEMINI_API_KEY_LOCAL_STORAGE_KEY <> k) by congruence.
  repeat split.
  - unfold setGeminiApiKey.
    destruct (negb (truthy key) || jsstr_eqb (trim key) []); cbn [snd].
    + rewrite getItem_removeItem_ne by exact Hk'. reflexivity.
    + destruct (constructorThrows key); cbn [snd]; [reflexivity|].
      rewrite getItem_setItem_ne by exact Hk'. reflexivity.
  - unfold getItem. rewrite loadKey_storage. reflexivity.
  - unfold clearGeminiApiKey. rewrite getItem_removeItem_ne by exact Hk'. reflexivity.
  - unfold getItem. rewrite analyze_storage. reflexivity.
Qed.

(** X5. The round trip of a call: when the guard yields a client and the
    remote service answers a text from which [JSON.parse] builds a record,
    [analyzeChartWithGemini] returns that record as it is; the client and
    the storage are as the guard left them and one request was sent. *)
Theorem analyze_success (img mime : jsstr) (w : World)
    (client : GoogleGenAI) (text : jsstr) (d : AnalysisData) :
  fst (ensure w) = Some client ->
  generateContent client (request img mime) = Responded (Some text) ->
  text <> [] ->
  JSON_parse (extractJson text) = Some d ->
  fst (analyze img mime w) = Normal d /\
  ai (snd (analyze img mime w)) = Some client /\
  localStorage (snd (analyze img mime w)) = localStorage w /\
  network (snd (analyze img mime w)) = network w ++ [request img mime].
Proof.
  intros He Hg Hne Hp. unfold analyzeChartWithGemini.
  destruct (ensure_storage constructorThrows w) as (Hs & Hn & Ha).
  destruct (ensure w) as [c w1]. cbn [fst snd] in *. subst c.
  rewrite Hg. unfold tryBody.
  replace (truthy text) with true by (destruct text; [congruence|reflexivity]).
  unfold parseResponse. rewrite Hp. cbn [fst snd send ai localStorage network].
  rewrite Hn. auto.
Qed.

(** X6. One call, at most one request: a call whose guard yields a client
    sends exactly one request, the one built from the image, its media type,
    the model name and the prompt, whatever the remote service does with
    it; a call whose guard fails sends none. Nothing is sent twice. *)
Theorem analyze_one_request (img mime : jsstr) (w : World) :
  network (snd (analyze img mime w)) =
  network w ++ match fst (ensure w) with
               | Some _ => [request img mime]
               | None => []
               end.
Proof.
  unfold analyzeChartWithGemini.
  destruct (ensure_storage constructorThrows w) as (_ & Hn & _).
  destruct (ensure w) as [[client|] w1]; cbn [fst snd] in *.
  - destruct (tryBody JSON_parse (generateContent client (request img mime)))
      as [d|error]; cbn [snd].
    + cbn [send network]. rewrite Hn. reflexivity.
    + destruct (handler_world AnalysisData error (send (request img mime) w1))
        as (_ & Hh & _).
      rewrite Hh. cbn [send network]. rewrite Hn. reflexivity.
  - rewrite Hn, app_nil_r. reflexivity.
Qed.

(** X7. A rejection whose message contains the word quota, in lower case,
    and no invalid-key signal: [analyzeChartWithGemini] throws the quota
    error with that message after its prefix, and the client stays. *)
Theorem analyze_quota (img mime : jsstr) (w : World)
    (client : GoogleGenAI) (error : Thrown) (m : jsstr) :
  fst (ensure w) = Some client ->
  generateContent client (request img mime) = Rejected error ->
  message error = Some m ->
  includes (toLowerCase m) SIGNAL_INVALID = false ->
  includes (toLowerCase m) SIGNAL_NOT_VALID = false ->
  includes m SIGNAL_QUOTA = true ->
  fst (analyze img mime w) = Throw (Error (MSG_QUOTA ++ m)) /\
  isGeminiClientInitialized (snd (analyze img mime w)) = true.
Proof.
  intros He Hg Hm H1 H2 H3. unfold analyzeChartWithGemini.
  destruct (ensure_storage constructorThrows w) as (_ & _ & Ha).
  destruct (ensure w) as [c w1]. cbn [fst snd] in *. subst c.
  rewrite Hg. cbn [tryBody]. unfold handler, invalidKeySignal, quotaSignal. rewrite Hm.
  rewrite H1, H2, H3, andb_false_r, andb_true_r.
  destruct m as [|a m]; [discriminate H3|]. cbn [truthy interpolate fst snd].
  unfold isGeminiClientInitialized. cbn [send ai]. rewrite Ha. auto.
Qed.

(** X8. The reload inside the guard: a call made without a client, with a
    stored key that the constructor accepts, runs exactly as the same call
    made with the client of that key in place. *)
Theorem analyze_reloads_stored_key (img mime k : jsstr) (w : World) :
  ai w = None ->
  getStoredApiKey w = Some k ->
  k <> [] ->
  constructorThrows k = None ->
  analyze img mime w = analyze img mime (set_ai (Some (mkClient k)) w).
Proof.
  intros Ha Hs Hk Hok. unfold analyzeChartWithGemini, ensureClient.
  rewrite Ha. cbn [set_ai ai]. unfold loadApiKeyFromStorage.
  unfold getStoredApiKey in Hs. rewrite Hs.
  destruct k as [|c k]; [congruence|]. cbn [truthy]. rewrite Hok. reflexivity.
Qed.

(** X9. Dropping the client is not final. A call never removes the stored
    key, so when the stored key is one the constructor accepts, the guard of
    the next call has a client again, whatever the call before did: after
    the invalidation by a rejected key the next call builds the client anew
    from the same stored key. *)
Theorem analyze_next_call_has_client (img mime k : jsstr) (w : World) :
  getStoredApiKey w = Some k ->
  k <> [] ->
  constructorThrows k = None ->
  getStoredApiKey (snd (analyze img mime w)) = Some k /\
  is_Some (fst (ensure (snd (analyze img mime w)))) /\
  (ai (snd (analyze img mime w)) = None ->
   fst (ensure (snd (analyze img mime w))) = Some (mkClient k)).
Proof.
  intros Hs Hk Hok.
  assert (Hs' : getStoredApiKey (snd (analyze img mime w)) = Some k).
  { unfold getStoredApiKey, getItem in *. rewrite analyze_storage. exact Hs. }
  split; [exact Hs'|].
  assert (Hnone : ai (snd (analyze img mime w)) = None ->
                  fst (ensure (snd (analyze img mime w))) = Some (mkClient k)).
  { intros Ha. unfold ensureClient. rewrite Ha. unfold loadApiKeyFromStorage.
    unfold getStoredApiKey in Hs'. rewrite Hs'.
    destruct k as [|c k]; [congruence|]. cbn [truthy]. rewrite Hok. reflexivity. }
  split; [|exact Hnone].
  destruct (ai (snd (analyze img mime w))) as [c|] eqn:Ha.
  - unfold ensureClient. rewrite Ha. eexists. reflexivity.
  - rewrite (Hnone eq_refl). eexists. reflexivity.
Qed.

End ServiceBehaviour.

(** ** More on fence stripping: when the fences stay *)

Lemma den_suffix (r : Regex) :
  forall s s', den r s s' -> exists u, s = u ++ s'.
Proof.
  induction r as [| |a|p| |r1 IH1 r2 IH2|g r IH|r IH|i r IH]; intros s s'; cbn [den].
  - intros ->. exists []. reflexivity.
  - intros [-> ->]. exists []. reflexivity.
  - intros ->. exists [a]. reflexivity.
  - intros (b & _ & ->). exists [b]. reflexivity.
  - intros (b & ->). exists [b]. reflexivity.
  - intros (m & H1 & H2). apply IH1 in H1 as (u1 & ->). apply IH2 in H2 as (u2 & ->).
    exists (u1 ++ u2). rewrite app_assoc. reflexivity.
  - induction 1 as [s|s m s' H1 _ (u2 & ->)].
    + exists []. reflexivity.
    + apply IH in H1 as (u1 & ->). exists (u1 ++ u2). rewrite app_assoc. reflexivity.
  - intros [->|H]; [exists []; reflexivity|exact (IH _ _ H)].
  - apply IH.
Qed.

Lemma den_fenceTail (m s' : jsstr) :
  den fenceTail m s' -> exists w, m = w ++ str "```".
Proof.
  intros (m1 & Hopt & m2 & Hstar & Hlit).
  apply (den_suffix (Opt (Chr LF))) in Hopt as (u1 & ->).
  apply (den_suffix (Star true (Cls isWhiteSpace))) in Hstar as (u2 & ->).
  assert (Hm2 : m2 = str "```").
  { cbn in Hlit. destruct Hlit as (a1 & -> & a2 & -> & a3 & -> & -> & _). reflexivity. }
  subst m2. exists (u1 ++ u2). rewrite app_assoc. reflexivity.
Qed.

(** The pattern matches nothing but a text between an opening and a closing
    fence. *)
Lemma fenceRegex_shape (s : jsstr) (z : MatchState) :
  regexMatch fenceRegex s = Some z -> exists mid, s = str "```" ++ mid ++ str "```".
Proof.
  unfold regexMatch. intros H.
  assert (Hm : matcher fenceRegex (mkState 0 s []) Some = Some z).
  { destruct s as [|a s]; cbn [execFrom] in H;
      destruct (matcher fenceRegex _ Some) as [z'|]; try exact H; try discriminate H.
    rewrite execFrom_later in H by lia. discriminate H. }
  apply matcher_sound in Hm as (y & Hd & _). cbn [rest] in Hd.
  unfold fenceRegex in Hd.
  destruct Hd as (m0 & Hbol & Hd). cbn [den] in Hbol. subst m0.
  cbn [lit str list_ascii_of_string foldr] in Hd.
  destruct Hd as (a1 & E1 & a2 & E2 & a3 & E3 & Hd). cbn [den] in E1, E2, E3. subst s a1 a2.
  destruct Hd as (b1 & H1 & b2 & H2 & b3 & H3 & b4 & H4 & Htail).
  apply den_suffix in H1 as (u1 & ->). apply den_suffix in H2 as (u2 & ->).
  apply den_suffix in H3 as (u3 & ->). apply den_suffix in H4 as (u4 & ->).
  apply den_fenceTail in Htail as (w & ->).
  exists (u1 ++ u2 ++ u3 ++ u4 ++ w). cbn [str list_ascii_of_string app].
  do 3 f_equal. rewrite <- !app_assoc. reflexivity.
Qed.

(** X10. A response that, once trimmed, is not a text between three
    backticks at its start and three backticks at its end is handed to
    [JSON.parse] as it is, trimmed: a fence that was opened and not closed,
    as in a reply cut short, is not removed. *)
Theorem extractJson_needs_both_fences (t : jsstr) :
  (forall mid, trim t <> str "```" ++ mid ++ str "```") ->
  extractJson t = trim t.
Proof.
  intros H. unfold extractJson.
  destruct (regexMatch fenceRegex (trim t)) as [z|] eqn:E; [|reflexivity].
  apply fenceRegex_shape in E as (mid & E). exfalso. exact (H mid E).
Qed.

Lemma space_not_word (c : ascii) : isWhiteSpace c = true -> isWordChar c = false.
Proof.
  destruct c as [[] [] [] [] [] [] [] []]; intros H; try reflexivity; discriminate H.
Qed.

(** The second group on blanks before the closing fence: the lazy star
    stops at once and the group is empty. *)
Lemma fence_group_empty (i : nat) (caps : list (nat * jsstr)) (trail : jsstr) :
  Forall (fun b => isWhiteSpace b = true) trail ->
  exists z,
    matcher (Cat (Grp 2 (Star false Dot_s)) fenceTail)
      (mkState i (trail ++ str "```") caps) Some = Some z /\
    captures z = (2, []) :: caps.
Proof.
  intros Ht.
  destruct (fenceTail_accepts trail i ((2, []) :: caps) Ht) as (z & Hz & Hcap).
  exists z. split; [|exact Hcap].
  cbn [matcher groups rest endIndex].
  apply (repeat_dot_lazy _ _ z caps (trail ++ str "```") ltac:(reflexivity) [] i).
  - cbn [length]. lia.
  - cbn [length]. intros j Hj. lia.
  - cbn beta. cbn [endIndex rest captures length].
    rewrite Nat.add_0_r, Nat.sub_diag. exact Hz.
Qed.

Lemma fence_after_tag_blank (i : nat) (caps : list (nat * jsstr)) (u : jsstr) :
  Forall (fun b => isWhiteSpace b = true) u ->
  exists z,
    matcher fenceAfterTag (mkState i (u ++ str "```") caps) Some = Some z /\
    captures z = (2, []) :: caps.
Proof.
  intros Hu.
  destruct (fence_group_empty (i + length u) caps [] ltac:(constructor)) as (z & Hz & Hcap).
  exists z. split; [|exact Hcap].
  unfold fenceAfterTag.
  change (matcher (Cat (Star true (Cls isWhiteSpace)) ?k) ?x ?c)
    with (RepeatMatcher (matcher (Cls isWhiteSpace)) [] true
            (fun y => matcher k y c) (length (rest x)) x).
  apply (repeat_class_greedy _ isWhiteSpace).
  - reflexivity.
  - exact backtick_not_space.
  - exact Hu.
  - cbn [rest]. rewrite length_app. lia.
  - rewrite opt_chr_unfold. exact Hz.
Qed.

(** X11. A fence whose inside is only word characters and blanks is not
    removed. The word characters are taken for the language tag and the
    second group is empty, so the text goes to [JSON.parse] with its
    backticks: a number or a literal fenced on one line is such a text, and
    so is an empty block. *)
Theorem extractJson_fence_kept (tag u : jsstr) :
  Forall (fun c => isWordChar c = true) tag ->
  Forall (fun c => isWhiteSpace c = true) u ->
  extractJson (str "```" ++ tag ++ u ++ str "```") = str "```" ++ tag ++ u ++ str "```".
Proof.
  intros Htag Hu. unfold extractJson.
  assert (Htrim : trim (str "```" ++ tag ++ u ++ str "```")
                  = str "```" ++ tag ++ u ++ str "```").
  { apply (trim_fixed _ BACKTICK BACKTICK (str "``" ++ tag ++ u ++ str "```")).
    - reflexivity.
    - rewrite !last_app. reflexivity.
    - reflexivity.
    - reflexivity. }
  rewrite Htrim.
  assert (Hstop : stopsAt isWordChar (u ++ str "```")).
  { destruct u as [|c u]; [reflexivity|].
    apply Forall_cons in Hu as [Hc _]. exact (space_not_word c Hc). }
  assert (Hk : forall caps, exists z',
    matcher fenceAfterTag (mkState (3 + length tag) (u ++ str "```") caps) Some = Some z' /\
    group 2 z' = group 2 (mkState 0 [] [(2, [])])).
  { intros caps. destruct (fence_after_tag_blank (3 + length tag) caps u Hu)
      as (z' & Hz' & Hcap).
    exists z'. split; [exact Hz'|]. unfold group. rewrite Hcap. reflexivity. }
  destruct (fence_tag fenceAfterTag 3 tag (u ++ str "```") Some
              (mkState 0 [] [(2, [])]) Htag Hstop Hk) as (z & Hz & Hg).
  assert (Hmatch : regexMatch fenceRegex (str "```" ++ tag ++ u ++ str "```") = Some z).
  { clear Htrim. unfold regexMatch.
    generalize dependent (tag ++ u ++ str "```"). intros s Hz.
    cbn [execFrom app str list_ascii_of_string].
    change (matcher fenceRegex (mkState 0 ("`"%char :: "`"%char :: "`"%char :: s) []) Some)
      with (matcher (Cat Bol (lit (str "```")
                       (Cat (Opt (Grp 1 (Star true (Cls isWordChar)))) fenceAfterTag)))
              (mkState 0 (str "```" ++ s) []) Some).
    rewrite fence_open, Hz. reflexivity. }
  rewrite Hmatch, Hg. reflexivity.
Qed.

(** ** Where a signal can sit in a message *)

Lemma startsWith_refl (s : jsstr) : startsWith s s = true.
Proof. induction s as [|c s IH]; cbn [startsWith]; [reflexivity|]. rewrite Ascii.eqb_refl. exact IH. Qed.

Lemma startsWith_app_r (p s t : jsstr) : startsWith p s = true -> startsWith p (s ++ t) = true.
Proof.
  revert s. induction p as [|x p IH]; intros s; [reflexivity|].
  destruct s as [|y s]; cbn [startsWith app]; [discriminate|].
  intros H. apply andb_true_iff in H as [-> H]. exact (IH s H).
Qed.

Lemma startsWith_app_inv (p a b : jsstr) :
  startsWith p (a ++ b) = true ->
  startsWith p a = true \/ exists p2, p = a ++ p2 /\ startsWith p2 b = true.
Proof.
  revert a. induction p as [|x p IH]; intros a; [left; reflexivity|].
  destruct a as [|y a]; cbn [app startsWith].
  - intros H. right. exists (x :: p). auto.
  - intros H. apply andb_true_iff in H as [Hxy H]. rewrite Hxy. cbn [andb].
    apply Ascii.eqb_eq in Hxy. subst y.
    destruct (IH a H) as [Ha|(p2 & -> & Hp2)]; [left; exact Ha|].
    right. exists p2. auto.
Qed.

Lemma includes_startsWith (s p : jsstr) : startsWith p s = true -> includes s p = true.
Proof. intros H. destruct s; cbn [includes]; rewrite H; reflexivity. Qed.

Lemma includes_cons (c : ascii) (s p : jsstr) : includes s p = true -> includes (c :: s) p = true.
Proof. intros H. cbn [includes]. rewrite H. apply orb_true_r. Qed.

Lemma endsWith_refl (s : jsstr) : endsWith s s = true.
Proof. apply startsWith_refl. Qed.

Lemma endsWith_cons (c : ascii) (s q : jsstr) : endsWith s q = true -> endsWith (c :: s) q = true.
Proof. unfold endsWith. rewrite reverse_cons. apply startsWith_app_r. Qed.

(** An occurrence of [p] in [a ++ b] lies in [a], or in [b], or begins in
    [a] and ends in [b]. *)
Lemma includes_app_inv (a b p : jsstr) :
  includes (a ++ b) p = true ->
  includes a p = true \/ includes b p = true \/
  exists k, 0 < k < length p /\ endsWith a (take k p) = true.
Proof.
  induction a as [|x a IH]; [cbn [app]; auto|].
  intros H. change ((x :: a) ++ b) with (x :: a ++ b) in H. cbn [includes] in H.
  apply orb_true_iff in H as [H|H].
  - change (x :: a ++ b) with ((x :: a) ++ b) in H.
    apply startsWith_app_inv in H as [H|(p2 & -> & _)].
    + left. apply includes_startsWith. exact H.
    + destruct p2 as [|y p2].
      * left. rewrite app_nil_r. apply includes_startsWith, startsWith_refl.
      * right. right. exists (length (x :: a)). split.
        -- rewrite length_app. cbn [length]. lia.
        -- rewrite take_app_length. apply endsWith_refl.
  - destruct (IH H) as [Ha|[Hb|(k & Hk & He)]].
    + left. apply includes_cons. exact Ha.
    + right. left. exact Hb.
    + right. right. exists k. split; [exact Hk|]. apply endsWith_cons. exact He.
Qed.

Lemma includes_app_false (a b p : jsstr) :
  includes a p = false -> noStraddle a p = true -> includes b p = false ->
  includes (a ++ b) p = false.
Proof.
  intros Ha Hn Hb. destruct (includes (a ++ b) p) eqn:E; [|reflexivity].
  apply includes_app_inv in E as [E|[E|(k & Hk & He)]]; [congruence|congruence|].
  unfold noStraddle in Hn. rewrite forallb_forall in Hn.
  specialize (Hn k). rewrite He in Hn. discriminate Hn.
  apply in_seq. lia.
Qed.

Lemma toLowerCase_app (a b : jsstr) : toLowerCase (a ++ b) = toLowerCase a ++ toLowerCase b.
Proof. apply map_app. Qed.

(** A message that begins with a prefix free of signals carries a signal
    only where the text after the prefix does. *)
Lemma prefixed_no_signal (prefix s sig : jsstr) :
  includes (toLowerCase prefix) sig = false ->
  noStraddle (toLowerCase prefix) sig = true ->
  includes (toLowerCase s) sig = false ->
  includes (toLowerCase (prefix ++ s)) sig = false.
Proof. intros. rewrite toLowerCase_app. apply includes_app_false; assumption. Qed.

Lemma invalidKeySignal_miss (s : jsstr) :
  invalidKeySignal (Some s) = Some false ->
  includes (toLowerCase s) SIGNAL_INVALID = false /\
  includes (toLowerCase s) SIGNAL_NOT_VALID = false.
Proof.
  unfold invalidKeySignal. destruct s as [|c s]; [intros _; split; reflexivity|].
  cbn [truthy andb].
  destruct (includes (toLowerCase (c :: s)) SIGNAL_NOT_VALID); [discriminate|].
  intros [= H]. auto.
Qed.

Lemma callerSeesInvalidKey_no (s : jsstr) :
  includes (toLowerCase s) SIGNAL_INVALID = false ->
  includes (toLowerCase s) SIGNAL_NOT_VALID = false ->
  callerSeesInvalidKey (Some s) = false.
Proof. intros H1 H2. unfold callerSeesInvalidKey. rewrite H1, H2. apply andb_false_r. Qed.

Section ServiceMessages.

Variable AnalysisData : Type.
Variable JSON_parse : jsstr -> option AnalysisData.
Variable constructorThrows : jsstr -> option Thrown.
Variable generateContent : GoogleGenAI -> GenerateContentParameters -> RemoteOutcome.
Variable analysisPrompt : jsstr.

Local Abbreviation analyze :=
  (analyzeChartWithGemini JSON_parse constructorThrows generateContent analysisPrompt).

(** The errors of the handler of the service. *)
Lemma handler_no_signal (error : Thrown) (w w' : World) (msg : jsstr) :
  handler (AnalysisData := AnalysisData) error w = (Throw (Error msg), w') ->
  callerSeesInvalidKey (Some msg) = false.
Proof.
  unfold handler. destruct (invalidKeySignal (message error)) as [[|]|] eqn:Ek.
  - intros [= <- _]. reflexivity.
  - destruct (message error) as [s|] eqn:Em; [|discriminate Ek].
    apply invalidKeySignal_miss in Ek as (H1 & H2).
    destruct (quotaSignal (Some s)); intros [= <- _]; cbn [interpolate messageOrUnknown].
    + apply (callerSeesInvalidKey_no (MSG_QUOTA ++ s)).
      * apply (prefixed_no_signal MSG_QUOTA s SIGNAL_INVALID);
          first [assumption | vm_compute; reflexivity].
      * apply (prefixed_no_signal MSG_QUOTA s SIGNAL_NOT_VALID);
          first [assumption | vm_compute; reflexivity].
    + destruct (truthy s); [|reflexivity].
      apply (callerSeesInvalidKey_no (MSG_GENERIC ++ s)).
      * apply (prefixed_no_signal MSG_GENERIC s SIGNAL_INVALID);
          first [assumption | vm_compute; reflexivity].
      * apply (prefixed_no_signal MSG_GENERIC s SIGNAL_NOT_VALID);
          first [assumption | vm_compute; reflexivity].
  - discriminate.
Qed.

(** The errors of a call: the guard's error and those of the handler. *)
Lemma analyze_error_no_signal (img mime : jsstr) (w w' : World) (msg : jsstr) :
  analyze img mime w = (Throw (Error msg), w') ->
  callerSeesInvalidKey (Some msg) = false.
Proof.
  unfold analyzeChartWithGemini.
  destruct (ensureClient constructorThrows w) as [[client|] w1].
  - destruct (tryBody JSON_parse (generateContent client _)) as [d|error].
    + discriminate.
    + apply handler_no_signal.
  - intros [= <- _]. reflexivity.
Qed.

(** X12. No error message of [analyzeChartWithGemini] carries a signal the
    caller looks for. Whatever the remote service does, when the call
    throws an [Error], its message contains neither of the two invalid-key
    signals, the message of the invalid-key error included: the test the
    caller makes on the message of a failed analysis never succeeds on an
    error of the service. *)
Theorem service_errors_carry_no_signal (img mime : jsstr) (w w' : World) (msg : jsstr) :
  analyze img mime w = (Throw (Error msg), w') ->
  includes (toLowerCase msg) SIGNAL_NOT_VALID = false /\
  includes (toLowerCase msg) SIGNAL_INVALID = false /\
  callerSeesInvalidKey (Some msg) = false.
Proof.
  intros H. pose proof (analyze_error_no_signal img mime w w' msg H) as Hc.
  destruct msg as [|c msg]; [repeat split; reflexivity|].
  pose proof Hc as Hc'. unfold callerSeesInvalidKey in Hc'.
  cbn [truthy andb] in Hc'. apply orb_false_iff in Hc' as [H1 H2]. auto.
Qed.

End ServiceMessages.

(** ** The App component and the service *)

Section AppBehaviour.

Variable AnalysisData : Type.
Variable JSON_parse : jsstr -> option AnalysisData.
Variable constructorThrows : jsstr -> option Thrown.
Variable generateContent : GoogleGenAI -> GenerateContentParameters -> RemoteOutcome.
Variable analysisPrompt : jsstr.
Variable File : Type.
Variable typeErrorMessage : jsstr.

Local Abbreviation analyze :=
  (analyzeChartWithGemini JSON_parse constructorThrows generateContent analysisPrompt).
Local Abbreviation request := (buildRequest analysisPrompt).
Local Abbreviation ensure := (ensureClient constructorThrows).
Local Abbreviation UiState := (App.State AnalysisData File).
Local Abbreviation attemptOn :=
  (App.serviceAttempt JSON_parse constructorThrows generateContent analysisPrompt
     (File := File) typeErrorMessage).
Local Abbreviation handleSet := (App.handleSetApiKey constructorThrows typeErrorMessage).
Local Abbreviation mount := (App.onMount constructorThrows).

Lemma analysisFailed_flag (err : Thrown) (s : UiState) :
  callerSeesInvalidKey (message err) = false ->
  App.clientInitialized (App.analysisFailed err s) = App.clientInitialized s /\
  App.isKeyInputVisible (App.analysisFailed err s) = App.isKeyInputVisible s.
Proof. intros H. unfold App.analysisFailed. rewrite H. split; reflexivity. Qed.

(** X13. [handleAnalyzeChart] never clears the flag [clientInitialized] on
    an outcome of the service. Its handler clears the flag when the message
    of the caught value carries an invalid-key signal, and no message of the
    service does (the message of the engine's TypeError is assumed to carry
    none): after the handler has run, the flag is what it was, whatever the
    service did to its client. *)
Theorem handleAnalyzeChart_keeps_flag (img mime : jsstr) (s : UiState) (w : World) :
  callerSeesInvalidKey (Some typeErrorMessage) = false ->
  App.clientInitialized (fst (App.handleAnalyzeChart (attemptOn img mime) s w))
    = App.clientInitialized s.
Proof.
  intros Ht. unfold App.handleAnalyzeChart.
  destruct (App.chartImageFile s) as [file|]; [|reflexivity].
  destruct (App.clientInitialized s) eqn:Ec; cbn [negb]; [|exact Ec].
  unfold App.serviceAttempt.
  destruct (analyze img mime w) as [[d|e] w1] eqn:Ea; cbn [fst]; [exact Ec|].
  assert (Hno : callerSeesInvalidKey (message (App.thrownOf typeErrorMessage e)) = false).
  { destruct e as [msg|]; cbn [App.thrownOf message]; [|exact Ht].
    exact (analyze_error_no_signal _ _ _ _ _ _ _ _ _ _ Ea). }
  destruct (analysisFailed_flag (App.thrownOf typeErrorMessage e)
              (App.setAnalysis None (App.setError None (App.setIsLoading true s))) Hno)
    as (Hf & _).
  change (App.clientInitialized (App.setIsLoading false ?x)) with (App.clientInitialized x).
  rewrite Hf. exact Ec.
Qed.

(** X14. The flag of the component and the client of the service part
    ways on a rejected key. From a state with a file and the flag set, when
    the remote service rejects the request with an invalid-key signal, the
    service drops its client and [handleAnalyzeChart] shows the invalid-key
    message, yet the flag [clientInitialized] stays set and the key input
    stays as it was: the message of the service, which spells the key as a
    Gemini key, carries neither signal. *)
Theorem flag_survives_invalidation (img mime : jsstr) (s : UiState) (w : World)
    (file : File) (client : GoogleGenAI) (error : Thrown) (m : jsstr) :
  App.chartImageFile s = Some file ->
  App.clientInitialized s = true ->
  fst (ensure w) = Some client ->
  generateContent client (request img mime) = Rejected error ->
  message error = Some m ->
  includes (toLowerCase m) SIGNAL_INVALID = true \/
  includes (toLowerCase m) SIGNAL_NOT_VALID = true ->
  App.clientInitialized (fst (App.handleAnalyzeChart (attemptOn img mime) s w)) = true /\
  App.isKeyInputVisible (fst (App.handleAnalyzeChart (attemptOn img mime) s w))
    = App.isKeyInputVisible s /\
  App.error (fst (App.handleAnalyzeChart (attemptOn img mime) s w)) = Some MSG_INVALID_KEY /\
  App.isLoading (fst (App.handleAnalyzeChart (attemptOn img mime) s w)) = false /\
  isGeminiClientInitialized (snd (App.handleAnalyzeChart (attemptOn img mime) s w)) = false.
Proof.
  intros Hfile Hflag He Hg Hm Hsig.
  assert (Ha : analyze img mime w =
               (Throw (Error MSG_INVALID_KEY),
                set_ai None (send (request img mime) (snd (ensure w))))).
  { unfold analyzeChartWithGemini. destruct (ensure w) as [c w1]. cbn [fst snd] in *.
    subst c. rewrite Hg. cbn [tryBody]. unfold handler. rewrite Hm.
    rewrite (invalidKeySignal_hit m Hsig). reflexivity. }
  unfold App.handleAnalyzeChart. rewrite Hfile, Hflag. cbn [negb].
  unfold App.serviceAttempt. rewrite Ha. cbn [fst snd App.thrownOf].
  repeat split; try reflexivity. exact Hflag.
Qed.

(** X15. [handleChangeApiKey] always empties the key input. It reads the
    stored key after it has cleared it, so the value it shows is the empty
    string whatever was stored; the client and the stored key are gone, the
    flag is cleared and the key input is shown. *)
Theorem handleChangeApiKey_empties_input (s : UiState) (w : World) :
  App.apiKeyInput (fst (App.handleChangeApiKey s w)) = [] /\
  App.clientInitialized (fst (App.handleChangeApiKey s w)) = false /\
  App.isKeyInputVisible (fst (App.handleChangeApiKey s w)) = true /\
  App.analysis (fst (App.handleChangeApiKey s w)) = None /\
  isGeminiClientInitialized (snd (App.handleChangeApiKey s w)) = false /\
  getStoredApiKey (snd (App.handleChangeApiKey s w)) = None.
Proof.
  assert (Hs : getStoredApiKey (clearGeminiApiKey w) = None).
  { unfold getStoredApiKey, clearGeminiApiKey. apply getItem_removeItem. }
  unfold App.handleChangeApiKey. cbn [fst snd]. rewrite Hs.
  repeat split; reflexivity.
Qed.

(** X16. [handleSetApiKey] on an input that is not blank: the key handed
    to the service and stored is the trimmed input; the flag of the
    component afterwards says what the service says, and the key input is
    shown exactly when there is no client. *)
Theorem handleSetApiKey_follows_service (s : UiState) (w : World) :
  trim (App.apiKeyInput s) <> [] ->
  App.clientInitialized (fst (handleSet s w))
    = isGeminiClientInitialized (snd (handleSet s w)) /\
  App.isKeyInputVisible (fst (handleSet s w))
    = negb (isGeminiClientInitialized (snd (handleSet s w))) /\
  (constructorThrows (trim (App.apiKeyInput s)) = None ->
   isGeminiClientInitialized (snd (handleSet s w)) = true /\
   getStoredApiKey (snd (handleSet s w)) = Some (trim (App.apiKeyInput s))).
Proof.
  intros Hne. unfold App.handleSetApiKey.
  replace (truthy (trim (App.apiKeyInput s))) with true
    by (destruct (trim (App.apiKeyInput s)); [congruence|reflexivity]).
  cbn [negb]. unfold setGeminiApiKey.
  replace (truthy (trim (App.apiKeyInput s))) with true
    by (destruct (trim (App.apiKeyInput s)); [congruence|reflexivity]).
  rewrite trim_idem. unfold jsstr_eqb.
  rewrite bool_decide_eq_false_2 by exact Hne. cbn [negb orb].
  destruct (constructorThrows (trim (App.apiKeyInput s))) as [e|]; cbn [fst snd].
  - split; [reflexivity|]. split; [reflexivity|]. discriminate.
  - repeat split; try reflexivity. unfold getStoredApiKey. apply getItem_setItem.
Qed.

(** X17. [handleSetApiKey] on a blank input does not call the service:
    the world is as it was, so a client and a stored key that were there
    stay, while the flag of the component is cleared and the error asks for
    a valid key. *)
Theorem handleSetApiKey_blank (s : UiState) (w : World) :
  Forall (fun c => isWhiteSpace c = true) (App.apiKeyInput s) ->
  snd (handleSet s w) = w /\
  App.clientInitialized (fst (handleSet s w)) = false /\
  App.error (fst (handleSet s w)) = Some (str "Please enter a valid API Key.").
Proof.
  intros Hb. unfold App.handleSetApiKey. rewrite (trim_blank _ Hb).
  repeat split; reflexivity.
Qed.

(** X18. The effect of the first render leaves the component in step with
    the service: the flag is set exactly when the service has a client, the
    key input is shown exactly when it has none, a stored key is put in the
    input, and [localStorage] is not written. *)
Theorem onMount_follows_service (s : UiState) (w : World) :
  App.clientInitialized (fst (mount s w)) = isGeminiClientInitialized (snd (mount s w)) /\
  App.isKeyInputVisible (fst (mount s w))
    = negb (isGeminiClientInitialized (snd (mount s w))) /\
  (forall k, getStoredApiKey w = Some k -> k <> [] ->
             App.apiKeyInput (fst (mount s w)) = k) /\
  localStorage (snd (mount s w)) = localStorage w.
Proof.
  unfold App.onMount, loadApiKeyFromStorage, getStoredApiKey.
  destruct (getItem GEMINI_API_KEY_LOCAL_STORAGE_KEY w) as [k|].
  - destruct k as [|c k]; cbn [truthy].
    + repeat split; try reflexivity. intros k' [= <-] H. congruence.
    + destruct (constructorThrows (c :: k)); cbn [fst snd isGeminiClientInitialized set_ai ai];
        repeat split; try reflexivity; intros k' [= <-] _; reflexivity.
  - repeat split; try reflexivity. discriminate.
Qed.

End AppBehaviour.

(** ** The display of an analysis *)

Lemma splitFrom_nonempty (cur s : jsstr) : splitFrom cur s <> [].
Proof.
  revert cur. induction s as [|c s IH]; intros cur; [discriminate|].
  cbn [splitFrom]. destruct s as [|d s]; [discriminate|].
  destruct (Ascii.eqb c BACKSLASH && Ascii.eqb d "n"%char); [discriminate|apply IH].
Qed.

Lemma joinWith_cons (sep p : jsstr) (rest : list jsstr) :
  rest <> [] -> joinWith sep (p :: rest) = p ++ sep ++ joinWith sep rest.
Proof.
  destruct rest as [|q rest]; [congruence|]. intros _.
  cbn [joinWith map concat]. rewrite <- app_assoc. reflexivity.
Qed.

(** Splitting and joining back: the pieces of a text, joined by the
    separator, are the text. *)
Lemma splitFrom_join (n : nat) :
  forall s cur, length s <= n ->
  joinWith PARAGRAPH_SEPARATOR (splitFrom cur s) = cur ++ s.
Proof.
  induction n as [|n IH]; intros s cur Hn.
  - destruct s; [|cbn [length] in Hn; lia]. cbn [splitFrom joinWith map concat].
    rewrite !app_nil_r. reflexivity.
  - destruct s as [|c s]; [cbn [splitFrom joinWith map concat]; rewrite !app_nil_r; reflexivity|].
    cbn [splitFrom]. destruct s as [|d s].
    + cbn [joinWith map concat]. rewrite app_nil_r. reflexivity.
    + cbn [length] in Hn.
      destruct (Ascii.eqb c BACKSLASH && Ascii.eqb d "n"%char) eqn:E.
      * apply andb_true_iff in E as [Ec Ed].
        apply Ascii.eqb_eq in Ec, Ed. subst c d.
        rewrite joinWith_cons by apply splitFrom_nonempty.
        rewrite (IH s []) by lia. reflexivity.
      * rewrite (IH (d :: s) (cur ++ [c])) by (cbn [length]; lia).
        rewrite <- app_assoc. reflexivity.
Qed.

Lemma splitFrom_plain (s : jsstr) :
  forall cur, BACKSLASH ∉ s -> splitFrom cur s = [cur ++ s].
Proof.
  induction s as [|c s IH]; intros cur Hs; [cbn [splitFrom]; rewrite app_nil_r; reflexivity|].
  apply not_elem_of_cons in Hs as [Hc Hs]. cbn [splitFrom].
  destruct s as [|d s]; [reflexivity|].
  replace (Ascii.eqb c BACKSLASH) with false
    by (symmetry; apply Ascii.eqb_neq; congruence).
  cbn [andb]. rewrite (IH (cur ++ [c]) Hs). rewrite <- app_assoc. reflexivity.
Qed.

(** X19. A content without a backslash is one paragraph: the separator of
    the paragraphs is the two characters backslash and n, so line feeds in
    the content do not split it. *)
Theorem paragraphs_of_plain_content (content : jsstr) :
  BACKSLASH ∉ content -> splitParagraphs content = [content].
Proof. intros H. unfold splitParagraphs. rewrite (splitFrom_plain content [] H). reflexivity. Qed.

(** X20. What [AnalysisDisplay] shows is in the analysis: every section it
    renders has one of the six keys of [SECTION_TITLES], the analysis has a
    content that is not empty under that key, and the paragraphs of the
    section, joined by the separator, are that content. *)
Theorem display_shows_content (fallbackTitle : jsstr -> jsstr)
    (analysis : gmap jsstr jsstr) (sec : RenderedSection) :
  sec ∈ AnalysisDisplay fallbackTitle analysis ->
  sectionKey sec ∈ map fst SECTION_TITLES /\
  exists content,
    analysis !! sectionKey sec = Some content /\
    content <> [] /\
    joinWith PARAGRAPH_SEPARATOR (sectionParagraphs sec) = content.
Proof.
  unfold AnalysisDisplay. intros H.
  apply list_elem_of_omap in H as (key & Hkey & H).
  destruct (analysis !! key) as [content|] eqn:E; [|discriminate H].
  destruct content as [|c content]; [discriminate H|].
  cbn [truthy] in H. injection H as <-. cbn [sectionKey sectionParagraphs].
  split; [exact Hkey|]. exists (c :: content). split; [exact E|].
  split; [discriminate|].
  unfold splitParagraphs. apply (splitFrom_join (length (c :: content))). lia.
Qed.

Lemma omap_agree {A B : Type} (f g : A -> option B) (l : list A) :
  (forall x, x ∈ l -> f x = g x) -> omap f l = omap g l.
Proof.
  induction l as [|x l IH]; intros H; [reflexivity|].
  cbn [omap list_omap]. rewrite (H x) by (apply elem_of_cons; auto).
  rewrite IH; [reflexivity|]. intros y Hy. apply H. apply elem_of_cons. auto.
Qed.

(** X21. Keys outside the six of [SECTION_TITLES] are never displayed:
    adding or changing such a member of the analysis changes nothing of what
    [AnalysisDisplay] renders. *)
Theorem display_ignores_other_keys (fallbackTitle : jsstr -> jsstr)
    (analysis : gmap jsstr jsstr) (k v : jsstr) :
  k ∉ map fst SECTION_TITLES ->
  AnalysisDisplay fallbackTitle (<[k := v]> analysis) = AnalysisDisplay fallbackTitle analysis.
Proof.
  intros Hk. unfold AnalysisDisplay. apply omap_agree. intros key Hkey.
  rewrite lookup_insert_ne; [reflexivity|]. intros ->. exact (Hk Hkey).
Qed.

(** X22. The fallback of the title is never used: every key the component
    goes through has a title in [SECTION_TITLES] that is not empty, so what
    is rendered does not depend on how a key without title would be
    respelled. *)
Theorem display_fallback_unused (f g : jsstr -> jsstr) (analysis : gmap jsstr jsstr) :
  AnalysisDisplay f analysis = AnalysisDisplay g analysis.
Proof.
  unfold AnalysisDisplay. apply omap_agree. intros key Hkey.
  assert (Ht : exists t, titleOf SECTION_TITLES key = Some t /\ truthy t = true).
  { cbn [map fst SECTION_TITLES] in Hkey.
    repeat (apply elem_of_cons in Hkey as [->|Hkey]; [eexists; split; vm_compute; reflexivity|]).
    apply elem_of_nil in Hkey. contradiction. }
  destruct Ht as (t & -> & ->). reflexivity.
Qed.

(** ** The further properties on concrete inputs *)

Lemma setCredential_construction_failed_witness :
  fst (setGeminiApiKey throwingConstructor testKey (readyWorld (str "old-key")))
    = Throw (Error (MSG_INIT_FAILED ++ str "An API Key must be set")) /\
  isGeminiClientInitialized
    (snd (setGeminiApiKey throwingConstructor testKey (readyWorld (str "old-key")))) = false /\
  localStorage (snd (setGeminiApiKey throwingConstructor testKey (readyWorld (str "old-key"))))
    = localStorage (readyWorld (str "old-key")).
Proof.
  apply (setCredential_construction_failed throwingConstructor testKey
           (readyWorld (str "old-key")) (mkThrown (Some (str "An API Key must be set")))).
  - vm_compute. discriminate.
  - reflexivity.
Defined.

Lemma set_then_load_witness :
  loadApiKeyFromStorage acceptingConstructor
    (snd (setGeminiApiKey acceptingConstructor testKey freshWorld))
  = (Some testKey, snd (setGeminiApiKey acceptingConstructor testKey freshWorld)).
Proof.
  apply (set_then_load acceptingConstructor testKey freshWorld).
  - vm_compute. discriminate.
  - reflexivity.
Defined.

(** The entry of the other script is there before and after each
    operation, while the entry of the module is written, read or removed. *)
Lemma other_entries_untouched_witness :
  getItem otherEntry themedWorld = Some (str "dark") /\
  getItem otherEntry (snd (setGeminiApiKey acceptingConstructor testKey themedWorld))
    = Some (str "dark") /\
  getItem otherEntry (snd (loadApiKeyFromStorage acceptingConstructor themedWorld))
    = Some (str "dark") /\
  getItem otherEntry (clearGeminiApiKey themedWorld) = Some (str "dark") /\
  getItem otherEntry (snd (runAnalyze (Rejected keyRejected) themedWorld))
    = Some (str "dark").
Proof.
  assert (E : getItem otherEntry themedWorld = Some (str "dark"))
    by (vm_compute; reflexivity).
  split; [exact E|]. rewrite <- E.
  apply (other_entries_untouched _ flatObjectParse acceptingConstructor
           (constantRemote (Rejected keyRejected)) testPrompt
           otherEntry testKey testImage testMime themedWorld).
  vm_compute. discriminate.
Defined.

Lemma analyze_success_witness :
  fst (runAnalyze (Responded (Some (fenced (str "json") trendsUp))) (readyWorld testKey))
    = Normal [(str "trends", str "up")] /\
  ai (snd (runAnalyze (Responded (Some (fenced (str "json") trendsUp))) (readyWorld testKey)))
    = Some (mkClient testKey) /\
  localStorage
    (snd (runAnalyze (Responded (Some (fenced (str "json") trendsUp))) (readyWorld testKey)))
    = localStorage (readyWorld testKey) /\
  network
    (snd (runAnalyze (Responded (Some (fenced (str "json") trendsUp))) (readyWorld testKey)))
    = network (readyWorld testKey) ++ [buildRequest testPrompt testImage testMime].
Proof.
  apply (analyze_success _ flatObjectParse acceptingConstructor
           (constantRemote (Responded (Some (fenced (str "json") trendsUp)))) testPrompt
           testImage testMime (readyWorld testKey) (mkClient testKey)
           (fenced (str "json") trendsUp) [(str "trends", str "up")]).
  - reflexivity.
  - reflexivity.
  - vm_compute. discriminate.
  - vm_compute. reflexivity.
Defined.

Lemma analyze_quota_witness :
  fst (runAnalyze (Rejected quotaRejected) (readyWorld testKey))
    = Throw (Error (MSG_QUOTA ++ str "You exceeded your current quota")) /\
  isGeminiClientInitialized (snd (runAnalyze (Rejected quotaRejected) (readyWorld testKey)))
    = true.
Proof.
  apply (analyze_quota _ flatObjectParse acceptingConstructor
           (constantRemote (Rejected quotaRejected)) testPrompt
           testImage testMime (readyWorld testKey) (mkClient testKey) quotaRejected
           (str "You exceeded your current quota")).
  - reflexivity.
  - reflexivity.
  - reflexivity.
  - vm_compute. reflexivity.
  - vm_compute. reflexivity.
  - vm_compute. reflexivity.
Defined.

Lemma analyze_reloads_stored_key_witness :
  runAnalyze (Responded (Some trendsUp)) (set_ai None (readyWorld testKey))
  = runAnalyze (Responded (Some trendsUp))
      (set_ai (Some (mkClient testKey)) (set_ai None (readyWorld testKey))).
Proof.
  apply (analyze_reloads_stored_key _ flatObjectParse acceptingConstructor
           (constantRemote (Responded (Some trendsUp))) testPrompt
           testImage testMime testKey (set_ai None (readyWorld testKey))).
  - reflexivity.
  - vm_compute. reflexivity.
  - vm_compute. discriminate.
  - reflexivity.
Defined.

Lemma analyze_next_call_has_client_witness :
  getStoredApiKey (snd (runAnalyze (Rejected keyRejected) (readyWorld testKey)))
    = Some testKey /\
  is_Some (fst (ensureClient acceptingConstructor
                  (snd (runAnalyze (Rejected keyRejected) (readyWorld testKey))))) /\
  (ai (snd (runAnalyze (Rejected keyRejected) (readyWorld testKey))) = None ->
   fst (ensureClient acceptingConstructor
          (snd (runAnalyze (Rejected keyRejected) (readyWorld testKey))))
     = Some (mkClient testKey)).
Proof.
  apply (analyze_next_call_has_client _ flatObjectParse acceptingConstructor
           (constantRemote (Rejected keyRejected)) testPrompt
           testImage testMime testKey (readyWorld testKey)).
  - vm_compute. reflexivity.
  - vm_compute. discriminate.
  - reflexivity.
Defined.

Lemma extractJson_needs_both_fences_witness : extractJson cutShort = trim cutShort.
Proof.
  apply (extractJson_needs_both_fences cutShort).
  intros mid H. apply (f_equal last) in H. rewrite !last_app in H.
  vm_compute in H. discriminate H.
Defined.

Lemma extractJson_fence_kept_witness :
  extractJson (str "```" ++ str "true" ++ [] ++ str "```")
  = str "```" ++ str "true" ++ [] ++ str "```".
Proof.
  apply (extractJson_fence_kept (str "true") []).
  - repeat constructor.
  - constructor.
Defined.

Lemma service_errors_carry_no_signal_witness :
  includes (toLowerCase MSG_INVALID_KEY) SIGNAL_NOT_VALID = false /\
  includes (toLowerCase MSG_INVALID_KEY) SIGNAL_INVALID = false /\
  callerSeesInvalidKey (Some MSG_INVALID_KEY) = false.
Proof.
  apply (service_errors_carry_no_signal _ flatObjectParse acceptingConstructor
           (constantRemote (Rejected keyRejected)) testPrompt
           testImage testMime (readyWorld testKey)
           (snd (runAnalyze (Rejected keyRejected) (readyWorld testKey)))
           MSG_INVALID_KEY).
  vm_compute. reflexivity.
Defined.

Lemma handleAnalyzeChart_keeps_flag_witness :
  App.clientInitialized (fst (runHandleAnalyze (Rejected keyRejected)))
  = App.clientInitialized testUi.
Proof.
  apply (handleAnalyzeChart_keeps_flag _ flatObjectParse acceptingConstructor
           (constantRemote (Rejected keyRejected)) testPrompt unit testTypeErrorMessage
           testImage testMime testUi (readyWorld testKey)).
  vm_compute. reflexivity.
Defined.

Lemma flag_survives_invalidation_witness :
  App.clientInitialized (fst (runHandleAnalyze (Rejected keyRejected))) = true /\
  App.isKeyInputVisible (fst (runHandleAnalyze (Rejected keyRejected)))
    = App.isKeyInputVisible testUi /\
  App.error (fst (runHandleAnalyze (Rejected keyRejected))) = Some MSG_INVALID_KEY /\
  App.isLoading (fst (runHandleAnalyze (Rejected keyRejected))) = false /\
  isGeminiClientInitialized (snd (runHandleAnalyze (Rejected keyRejected))) = false.
Proof.
  apply (flag_survives_invalidation _ flatObjectParse acceptingConstructor
           (constantRemote (Rejected keyRejected)) testPrompt unit testTypeErrorMessage
           testImage testMime testUi (readyWorld testKey) tt (mkClient testKey)
           keyRejected (str "API key not valid. Please pass a valid API key.")).
  - reflexivity.
  - reflexivity.
  - reflexivity.
  - reflexivity.
  - reflexivity.
  - right. vm_compute. reflexivity.
Defined.

Lemma handleSetApiKey_follows_service_witness :
  App.clientInitialized
    (fst (App.handleSetApiKey acceptingConstructor testTypeErrorMessage testUi freshWorld))
  = isGeminiClientInitialized
      (snd (App.handleSetApiKey acceptingConstructor testTypeErrorMessage testUi freshWorld)) /\
  App.isKeyInputVisible
    (fst (App.handleSetApiKey acceptingConstructor testTypeErrorMessage testUi freshWorld))
  = negb (isGeminiClientInitialized
            (snd (App.handleSetApiKey acceptingConstructor testTypeErrorMessage testUi
                    freshWorld))) /\
  (acceptingConstructor (trim (App.apiKeyInput testUi)) = None ->
   isGeminiClientInitialized
     (snd (App.handleSetApiKey acceptingConstructor testTypeErrorMessage testUi freshWorld))
   = true /\
   getStoredApiKey
     (snd (App.handleSetApiKey acceptingConstructor testTypeErrorMessage testUi freshWorld))
   = Some (trim (App.apiKeyInput testUi))).
Proof.
  apply (handleSetApiKey_follows_service (list (jsstr * jsstr)) acceptingConstructor unit
           testTypeErrorMessage testUi freshWorld).
  vm_compute. discriminate.
Defined.

Lemma handleSetApiKey_blank_witness :
  snd (App.handleSetApiKey acceptingConstructor testTypeErrorMessage
         (App.setApiKeyInput (str "   ") testUi) (readyWorld testKey))
    = readyWorld testKey /\
  App.clientInitialized
    (fst (App.handleSetApiKey acceptingConstructor testTypeErrorMessage
            (App.setApiKeyInput (str "   ") testUi) (readyWorld testKey))) = false /\
  App.error
    (fst (App.handleSetApiKey acceptingConstructor testTypeErrorMessage
            (App.setApiKeyInput (str "   ") testUi) (readyWorld testKey)))
    = Some (str "Please enter a valid API Key.").
Proof.
  apply (handleSetApiKey_blank (list (jsstr * jsstr)) acceptingConstructor unit
           testTypeErrorMessage (App.setApiKeyInput (str "   ") testUi) (readyWorld testKey)).
  repeat constructor.
Defined.

Lemma paragraphs_of_plain_content_witness :
  splitParagraphs (str "Uptrend." ++ [LF] ++ str "Support at 90.")
  = [str "Uptrend." ++ [LF] ++ str "Support at 90."].
Proof.
  apply (paragraphs_of_plain_content (str "Uptrend." ++ [LF] ++ str "Support at 90.")).
  intros H. vm_compute in H.
  repeat (apply elem_of_cons in H as [H|H]; [discriminate H|]).
  apply elem_of_nil in H. exact H.
Defined.

Lemma display_shows_content_witness :
  sectionKey trendsSection ∈ map fst SECTION_TITLES /\
  exists content,
    trendsOnly !! sectionKey trendsSection = Some content /\
    content <> [] /\
    joinWith PARAGRAPH_SEPARATOR (sectionParagraphs trendsSection) = content.
Proof.
  apply (display_shows_content (fun k => k) trendsOnly trendsSection).
  replace (AnalysisDisplay (fun k => k) trendsOnly) with [trendsSection]
    by (vm_compute; reflexivity).
  apply elem_of_cons. left. reflexivity.
Defined.

Lemma display_ignores_other_keys_witness :
  AnalysisDisplay (fun k => k) (<[str "summary" := str "Bullish overall."]> trendsOnly)
  = AnalysisDisplay (fun k => k) trendsOnly.
Proof.
  apply (display_ignores_other_keys (fun k => k) trendsOnly (str "summary")
           (str "Bullish overall.")).
  intros H. vm_compute in H.
  repeat (apply elem_of_cons in H as [H|H]; [discriminate H|]).
  apply elem_of_nil in H. exact H.
Defined.
